(** * firewall_log_analyzer.py: line parser, log aggregator, BLOCKED filter

    A shallow embedding of [src/firewall_log_analyzer.py] and the
    properties its specification states about it.

    Python strings are sequences of Unicode code points; a code point is
    an [N].  [print] is modelled by a writer monad that collects the
    printed lines.  The two library facilities the script relies on are
    modelled for the fragment it uses: [re.search] on a pattern made of
    literal characters and named groups [(?P<name>C+)] with a greedy,
    backtracking [+], and the pandas [DataFrame] built from a list of
    dicts and selected with a boolean mask. *)

From Stdlib Require Import NArith Ascii String.
From stdpp Require Import base option list strings.

Open Scope N_scope.

(** ** Text *)

Abbreviation char := N (only parsing).
Abbreviation str := (list N) (only parsing).

(** The code points of an ASCII literal of the source. *)
Fixpoint str_of (s : string) : str :=
  match s with
  | EmptyString => []
  | String a s' => N_of_ascii a :: str_of s'
  end.

(** [str.isspace], which is also the class [\s] of [re] on [str]
    patterns and the set [str.strip()] removes. *)
Definition is_space (c : char) : bool :=
  ((0x09 <=? c) && (c <=? 0x0D)) || ((0x1C <=? c) && (c <=? 0x20))
  || (c =? 0x85) || (c =? 0xA0) || (c =? 0x1680)
  || ((0x2000 <=? c) && (c <=? 0x200A))
  || (c =? 0x2028) || (c =? 0x2029) || (c =? 0x202F) || (c =? 0x205F)
  || (c =? 0x3000).

(** First code point of every block of ten decimal digits (Unicode
    general category Nd, Unicode 14.0 as shipped with CPython 3.11). *)
Definition digit_blocks : list N :=
  [ 0x30; 0x660; 0x6F0; 0x7C0; 0x966; 0x9E6; 0xA66; 0xAE6; 0xB66; 0xBE6;
    0xC66; 0xCE6; 0xD66; 0xDE6; 0xE50; 0xED0; 0xF20; 0x1040; 0x1090;
    0x17E0; 0x1810; 0x1946; 0x19D0; 0x1A80; 0x1A90; 0x1B50; 0x1BB0;
    0x1C40; 0x1C50; 0xA620; 0xA8D0; 0xA900; 0xA9D0; 0xA9F0; 0xAA50;
    0xABF0; 0xFF10; 0x104A0; 0x10D30; 0x11066; 0x110F0; 0x11136; 0x111D0;
    0x112F0; 0x11450; 0x114D0; 0x11650; 0x116C0; 0x11730; 0x118E0;
    0x11950; 0x11C50; 0x11D50; 0x11DA0; 0x16A60; 0x16AC0; 0x16B50;
    0x1D7CE; 0x1D7D8; 0x1D7E2; 0x1D7EC; 0x1D7F6;
    0x1E140; 0x1E2F0; 0x1E950; 0x1FBF0 ].

(** The class [\d] of [re] on [str] patterns. *)
Definition is_digit (c : char) : bool :=
  existsb (λ lo, (lo <=? c) && (c <? lo + 10)) digit_blocks.

(** [str.lstrip()], [str.rstrip()] and [str.strip()] without argument. *)
Fixpoint lstrip (s : str) : str :=
  match s with
  | [] => []
  | c :: s' => if is_space c then lstrip s' else s
  end.

Definition rstrip (s : str) : str := rev (lstrip (rev s)).

Definition strip (s : str) : str := rstrip (lstrip s).

(** ** The fragment of [re] the script uses *)

Inductive cclass : Type :=
  | NonSpace   (* \S *)
  | Digit.     (* \d *)

Definition in_class (k : cclass) (c : char) : bool :=
  match k with
  | NonSpace => negb (is_space c)
  | Digit => is_digit c
  end.

Inductive item : Type :=
  | Lit (c : char)                        (* a literal character *)
  | Group (name : string) (k : cclass).   (* (?P<name>k+) *)

Abbreviation regex := (list item) (only parsing).
Abbreviation dict := (list (string * list N)) (only parsing).

Definition lit (w : string) : regex := Lit <$> str_of w.

(** Length of the longest prefix of [s] made of characters of class [k]. *)
Fixpoint run_length (k : cclass) (s : str) : nat :=
  match s with
  | [] => 0%nat
  | c :: s' => if in_class k c then S (run_length k s') else 0%nat
  end.

(** Greedy repetition: the continuation is tried after the longest run
    first, then after ever shorter ones, down to one character. *)
Fixpoint backtrack {A} (try : nat → option A) (n : nat) : option (nat * A) :=
  match n with
  | O => None
  | S m =>
      match try (S m) with
      | Some r => Some (S m, r)
      | None => backtrack try m
      end
  end.

(** Match the pattern at the start of [s]; the result is the list of
    named groups with the text each one captured ([groupdict()]). *)
Fixpoint match_here (p : regex) (s : str) : option dict :=
  match p with
  | [] => Some []
  | Lit c :: p' =>
      match s with
      | x :: s' => if x =? c then match_here p' s' else None
      | [] => None
      end
  | Group name k :: p' =>
      match backtrack (λ n, match_here p' (drop n s)) (run_length k s) with
      | Some (n, caps) => Some ((name, take n s) :: caps)
      | None => None
      end
  end.

(** [re.search]: the first start position, from the left, at which the
    pattern matches. *)
Fixpoint re_search (p : regex) (s : str) : option dict :=
  match match_here p s with
  | Some m => Some m
  | None =>
      match s with
      | [] => None
      | _ :: s' => re_search p s'
      end
  end.

(** ** Standard output *)

(** The lines printed and the result, for a standard output that can
    encode what is printed; [print_on] below has the other case. *)

Definition IO (A : Type) : Type := (list (list N) * A)%type.

Definition io_ret {A} (a : A) : IO A := ([], a).

Definition io_bind {A B} (m : IO A) (f : A → IO B) : IO B :=
  let (o1, a) := m in let (o2, b) := f a in (o1 ++ o2, b).

Definition print (s : str) : IO unit := ([s], tt).

Definition stdout {A} (m : IO A) : list (list N) := m.1.
Definition value {A} (m : IO A) : A := m.2.

Notation "x <- m ;; k" := (io_bind m (λ x, k))
  (at level 100, m at next level, right associativity).
Notation "m ;; k" := (io_bind m (λ _, k))
  (at level 100, right associativity).

(** ** [parse_log_line] *)

Definition log_pattern : regex :=
  lit "SRC=" ++ [Group "src_ip" NonSpace] ++ lit " "
  ++ lit "DST=" ++ [Group "dst_ip" NonSpace] ++ lit " "
  ++ lit "PROTO=" ++ [Group "protocol" NonSpace] ++ lit " "
  ++ lit "SPT=" ++ [Group "src_port" Digit] ++ lit " "
  ++ lit "DPT=" ++ [Group "dst_port" Digit] ++ lit " "
  ++ lit "ACTION=" ++ [Group "action" NonSpace].

Definition parse_log_line (line : str) : IO (option dict) :=
  match re_search log_pattern (strip line) with
  | Some groupdict =>
      print (str_of "Matched Line: " ++ strip line) ;;
      io_ret (Some groupdict)
  | None =>
      print (str_of "Skipped Line: " ++ strip line) ;;
      io_ret None
  end.

(** ** Dicts, exceptions and data frames *)

(** [d[k]] on a dict, [None] when the key is absent. *)
Fixpoint dict_get (d : dict) (k : string) : option str :=
  match d with
  | [] => None
  | (k', v) :: d' => if decide (k' = k) then Some v else dict_get d' k
  end.

(** Truth value of what [parse_log_line] returns: [None] and the empty
    dict are false. *)
Definition truthy (parsed_line : option dict) : bool :=
  match parsed_line with
  | None => false
  | Some [] => false
  | Some (_ :: _) => true
  end.

(** The errors [open] can end in, and the exceptions of the script. *)
Inductive os_error : Type :=
  | FileNotFoundError
  | PermissionError
  | IsADirectoryError.

Inductive exn : Type :=
  | OSError (e : os_error)
  | UnicodeEncodeError
  | KeyError (key : string).

Inductive result (A : Type) : Type :=
  | Ok (a : A)
  | Raise (e : exn).
Arguments Ok {A} a.
Arguments Raise {A} e.

(** A data frame: the column labels, and the rows in order, each with
    its index label.  A cell is the row's entry for the column; a row
    without the key holds NaN there ([None]). *)
Record DataFrame : Type := mkDataFrame {
  columns : list string;
  rows : list (nat * list (string * list N))
}.

(** Column labels of [pd.DataFrame(data)]: the keys of the dicts in the
    order of their first appearance. *)
Fixpoint add_keys (acc : list string) (ks : list string) : list string :=
  match ks with
  | [] => acc
  | k :: ks' => add_keys (if decide (k ∈ acc) then acc else acc ++ [k]) ks'
  end.

(** [pd.DataFrame(data)] for a list of dicts: one row per dict, in
    order, labelled 0, 1, 2, ... *)
Definition pd_DataFrame (data : list dict) : DataFrame :=
  {| columns := foldl add_keys [] ((λ d : list (string * list N), d.*1) <$> data);
     rows := imap (λ i d, (i, d)) data |}.

(** [df.empty] *)
Definition df_empty (df : DataFrame) : bool :=
  match columns df, rows df with
  | _ :: _, _ :: _ => false
  | _, _ => true
  end.

(** [df[col]]: the cells of a column, [KeyError] if there is no such
    column. *)
Definition getitem_column (df : DataFrame) (col : string)
  : result (list (option str)) :=
  if decide (col ∈ columns df)
  then Ok ((λ r, dict_get r.2 col) <$> rows df)
  else Raise (KeyError col).

(** [series == value]: NaN is equal to nothing. *)
Definition eq_scalar (series : list (option str)) (v : str) : list bool :=
  (λ cell, bool_decide (cell = Some v)) <$> series.

(** [df[mask]]: the rows whose mask entry is [True], with their labels. *)
Definition getitem_mask (df : DataFrame) (mask : list bool) : DataFrame :=
  {| columns := columns df;
     rows := (filter (λ rm, rm.2 = true) (zip (rows df) mask)).*1 |}.

(** The selection of line 86, [df[df[field] == value]], for any field
    and value. *)
Definition filterByField (df : DataFrame) (field : string) (v : str)
  : result DataFrame :=
  match getitem_column df field with
  | Ok series => Ok (getitem_mask df (eq_scalar series v))
  | Raise e => Raise e
  end.

(** ** [analyze_logs] *)

(** What [open(path, "r")] does: raise, or give the lines of the file,
    read to its end. *)
Inductive opened : Type :=
  | OpenRaises (e : os_error)
  | OpenYields (lines : list (list N)).

(** The body of [for line in file]. *)
Fixpoint for_line_in (file : list str) (parsed_data : list dict)
  : IO (list dict) :=
  match file with
  | [] => io_ret parsed_data
  | line :: file' =>
      parsed_line <- parse_log_line line ;;
      for_line_in file'
        (match parsed_line with
         | Some d => if truthy parsed_line then parsed_data ++ [d]
                     else parsed_data
         | None => parsed_data
         end)
  end.

Definition analyze_logs (fs : string → opened) (log_file_path : string)
  : IO (result (option DataFrame)) :=
  match fs log_file_path with
  | OpenRaises FileNotFoundError =>
      print (str_of "Error: Log file not found.") ;;
      io_ret (Ok None)
  | OpenRaises e => io_ret (Raise (OSError e))
  | OpenYields file =>
      parsed_data <- for_line_in file [] ;;
      match parsed_data with
      | _ :: _ => io_ret (Ok (Some (pd_DataFrame parsed_data)))
      | [] =>
          print (str_of "No valid log entries were parsed.") ;;
          io_ret (Ok None)
      end
  end.

(** ** [main] *)

Section Main.
(** The text [print] shows for a data frame. *)
Variable to_string : DataFrame → list N.

Definition main (fs : string → opened) : IO (result unit) :=
  let log_file := "firewall_logs.txt"%string in
  print (str_of "Analyzing logs from firewall_logs.txt...") ;;
  r <- analyze_logs fs log_file ;;
  match r with
  | Raise e => io_ret (Raise e)
  | Ok (Some log_data) =>
      if negb (df_empty log_data) then
        print (str_of "
--- Parsed Firewall Logs ---
") ;;
        print (to_string log_data) ;;
        match filterByField log_data "action" (str_of "BLOCKED") with
        | Raise e => io_ret (Raise e)
        | Ok blocked_traffic =>
            print (str_of "
--- Blocked Traffic ---
") ;;
            print (to_string blocked_traffic) ;;
            io_ret (Ok tt)
        end
      else
        print (str_of "No valid log data found.") ;; io_ret (Ok tt)
  | Ok None =>
      print (str_of "No valid log data found.") ;; io_ret (Ok tt)
  end.
End Main.

(** ** [print] on a standard output that cannot encode every text *)

(** [print(s)] where [encodable] tells which texts the encoding of
    standard output accepts: a text it rejects raises, and nothing of it
    is written. *)
Definition print_on (encodable : str → bool) (s : str) : IO (result unit) :=
  if encodable s then ([s], Ok tt) else ([], Raise UnicodeEncodeError).

(** UTF-8 encodes every code point but the surrogates. *)
Definition utf8_encodable (s : str) : bool :=
  forallb (λ c, negb ((0xD800 <=? c) && (c <=? 0xDFFF))) s.

(** [parse_log_line] with the exception its [print] can raise. *)
Definition parse_log_line_on (encodable : str → bool) (line : str)
  : IO (result (option dict)) :=
  match re_search log_pattern (strip line) with
  | Some groupdict =>
      match print_on encodable (str_of "Matched Line: " ++ strip line) with
      | (out, Ok _) => (out, Ok (Some groupdict))
      | (out, Raise e) => (out, Raise e)
      end
  | None =>
      match print_on encodable (str_of "Skipped Line: " ++ strip line) with
      | (out, Ok _) => (out, Ok None)
      | (out, Raise e) => (out, Raise e)
      end
  end.

(** ** Vocabulary of the specification *)

(** The six values of a log line. *)
Record fields : Type := mkFields {
  src_ip : list N;
  dst_ip : list N;
  protocol : list N;
  src_port : list N;
  dst_port : list N;
  action : list N
}.

(** A value: one or more characters, all of the class. *)
Definition token (k : cclass) (w : str) : bool :=
  match w with
  | [] => false
  | _ :: _ => forallb (in_class k) w
  end.

Definition valid (v : fields) : bool :=
  token NonSpace (src_ip v) && token NonSpace (dst_ip v)
  && token NonSpace (protocol v)
  && token Digit (src_port v) && token Digit (dst_port v)
  && token NonSpace (action v).

(** The six key-value tokens, in order, one space between them. *)
Definition tokens (v : fields) : str :=
  str_of "SRC=" ++ src_ip v ++ str_of " DST=" ++ dst_ip v
  ++ str_of " PROTO=" ++ protocol v ++ str_of " SPT=" ++ src_port v
  ++ str_of " DPT=" ++ dst_port v ++ str_of " ACTION=" ++ action v.

(** The record [parse_log_line] returns for these values. *)
Definition record_of (v : fields) : dict :=
  [("src_ip", src_ip v); ("dst_ip", dst_ip v); ("protocol", protocol v);
   ("src_port", src_port v); ("dst_port", dst_port v);
   ("action", action v)]%string.

(** The text after a run of class [k] characters does not go on with
    one more of them. *)
Definition class_end (k : cclass) (rest : str) : bool :=
  match rest with
  | [] => true
  | c :: _ => negb (in_class k c)
  end.

(** The text after the action value: nothing, or it starts with
    whitespace (the value is the whole whitespace-delimited token). *)
Definition token_end (rest : str) : bool :=
  match rest with
  | [] => true
  | c :: _ => is_space c
  end.

(** What [parse_log_line] prints for a line. *)
Definition diagnostic (line : str) : str :=
  match value (parse_log_line line) with
  | Some _ => str_of "Matched Line: "
  | None => str_of "Skipped Line: "
  end ++ strip line.

(** The column labels of a data frame of parsed records. *)
Definition field_names : list string :=
  ["src_ip"; "dst_ip"; "protocol"; "src_port"; "dst_port"; "action"]%string.

(** The line contains the six tokens somewhere. *)
Definition well_formed (line : str) : Prop :=
  ∃ pre v post, line = pre ++ tokens v ++ post ∧ valid v = true.

(** The six tokens with values [v] start at position [i] of [s], the
    action value reaching up to the next whitespace or the end. *)
Definition occurs_at (s : str) (i : nat) (v : fields) : Prop :=
  ∃ post, (i ≤ length s)%nat ∧ drop i s = tokens v ++ post
          ∧ valid v = true ∧ token_end post = true.

(** ** Where a key stands in a line *)

Definition keys : list string :=
  ["SRC="; "DST="; "PROTO="; "SPT="; "DPT="; "ACTION="]%string.

Fixpoint starts_with (K s : str) : bool :=
  match K, s with
  | [], _ => true
  | k :: K', c :: s' => (c =? k) && starts_with K' s'
  | _ :: _, [] => false
  end.

(** The positions at which [K] stands in [s], counted from [i]. *)
Fixpoint positions_from (i : nat) (K s : str) : list nat :=
  (if starts_with K s then [i] else [])
  ++ match s with
     | [] => []
     | _ :: s' => positions_from (S i) K s'
     end.

Definition positions (K s : str) : list nat := positions_from 0 K s.

(** ** Sample events *)

Definition event_allowed : fields :=
  mkFields (str_of "10.0.0.7") (str_of "10.0.0.9") (str_of "UDP")
           (str_of "53") (str_of "5353") (str_of "ALLOWED").

Definition event_blocked : fields :=
  mkFields (str_of "192.168.1.5") (str_of "10.0.0.1") (str_of "TCP")
           (str_of "443") (str_of "51515") (str_of "BLOCKED").

(** ** Sample files *)

(** A file system with one file, [firewall_logs.txt], of given lines. *)
Definition fs_with (file : list str) (path : string) : opened :=
  if decide (path = "firewall_logs.txt"%string) then OpenYields file
  else OpenRaises FileNotFoundError.

(** A file system without the log file. *)
Definition fs_missing (path : string) : opened :=
  OpenRaises FileNotFoundError.

Definition sample_file : list str :=
  [ str_of "Jan 1 00:00:00 kernel: " ++ tokens event_blocked ++ [10];
    str_of "malformed garbage text" ++ [10];
    tokens event_allowed ++ [10] ].

Definition garbage_file : list str :=
  [ str_of "malformed garbage text" ++ [10]; [10] ].

(** The data frame of three parsed records, two of them BLOCKED. *)
Definition sample_frame : DataFrame :=
  pd_DataFrame [record_of event_blocked; record_of event_allowed;
                record_of event_blocked].

(** ** What [main] prints around the tables *)

Definition banner_start : list N :=
  str_of "Analyzing logs from firewall_logs.txt...".

Definition banner_parsed : list N :=
  [10] ++ str_of "--- Parsed Firewall Logs ---" ++ [10].

Definition banner_blocked : list N :=
  [10] ++ str_of "--- Blocked Traffic ---" ++ [10].

Definition banner_nothing : list N := str_of "No valid log data found.".

(** The BLOCKED rows of [sample_frame], with their labels. *)
Definition blocked_frame : DataFrame :=
  {| columns := field_names;
     rows := [ (0%nat, record_of event_blocked);
               (2%nat, record_of event_blocked) ] |}.

(** * Properties *)

(** ** The scenarios of the specification *)

Example parse_spec_scenario :
  value (parse_log_line (str_of
    "Jan 1 00:00:00 kernel: SRC=192.168.1.5 DST=10.0.0.1 PROTO=TCP SPT=443 DPT=51515 ACTION=BLOCKED"))
  = Some [("src_ip", str_of "192.168.1.5"); ("dst_ip", str_of "10.0.0.1");
          ("protocol", str_of "TCP"); ("src_port", str_of "443");
          ("dst_port", str_of "51515"); ("action", str_of "BLOCKED")].
Proof. vm_compute. reflexivity. Qed.

Example parse_garbage :
  parse_log_line (str_of "malformed garbage text")
  = ([str_of "Skipped Line: malformed garbage text"], None).
Proof. vm_compute. reflexivity. Qed.


(** ** Characters *)

Lemma space_is_space : is_space 32 = true.
Proof. reflexivity. Qed.

Lemma space_not_digit : is_digit 32 = false.
Proof. vm_compute. reflexivity. Qed.

Lemma eqb_space_class k c : in_class k c = true → (c =? 32) = false.
Proof.
  intros Hc. apply N.eqb_neq. intros ->.
  destruct k; vm_compute in Hc; discriminate.
Qed.

(** ** Greedy repetition *)

Lemma backtrack_Some {A} (try : nat → option A) n k r :
  backtrack try n = Some (k, r) →
  (1 ≤ k ≤ n)%nat ∧ try k = Some r ∧ ∀ j, (k < j ≤ n)%nat → try j = None.
Proof.
  induction n as [|n IH]; simpl; [discriminate|].
  destruct (try (S n)) as [r'|] eqn:E.
  - intros [= <- <-]. repeat split; [lia | lia | done | intros j ?; lia].
  - intros H. destruct (IH H) as ([? ?] & ? & Hn).
    repeat split; [lia | lia | done |].
    intros j [? ?]. destruct (decide (j = S n)) as [->|]; [done|].
    apply Hn. lia.
Qed.

Lemma backtrack_None {A} (try : nat → option A) n :
  backtrack try n = None ↔ ∀ j, (1 ≤ j ≤ n)%nat → try j = None.
Proof.
  induction n as [|n IH]; simpl.
  - split; [intros _ j ?; lia | done].
  - destruct (try (S n)) as [r|] eqn:E.
    + split; [discriminate|]. intros H. rewrite H in E by lia. discriminate.
    + rewrite IH. split.
      * intros H j [? ?]. destruct (decide (j = S n)) as [->|]; [done|].
        apply H. lia.
      * intros H j ?. apply H. lia.
Qed.

Lemma backtrack_longest {A} (try : nat → option A) n r :
  (1 ≤ n)%nat → try n = Some r → backtrack try n = Some (n, r).
Proof. destruct n; [lia|]. intros _ H. simpl. by rewrite H. Qed.

Lemma token_Forall k w :
  token k w = true ↔ w ≠ [] ∧ Forall (λ c, in_class k c = true) w.
Proof.
  unfold token. destruct w as [|c w].
  - split; [discriminate|]. by intros [? _].
  - rewrite forallb_forall, Forall_forall.
    setoid_rewrite <- list_elem_of_In.
    split; [intros H; split; [discriminate|exact H]|by intros [_ H]].
Qed.

Lemma run_length_app k r rest :
  Forall (λ c, in_class k c = true) r → class_end k rest = true →
  run_length k (r ++ rest) = length r.
Proof.
  intros Hr Hrest. induction Hr as [|c r Hc _ IH]; simpl.
  - destruct rest as [|c rest]; [done|]. simpl in *.
    by destruct (in_class k c).
  - by rewrite Hc, IH.
Qed.

Lemma run_length_take k s n :
  (n ≤ run_length k s)%nat →
  length (take n s) = n ∧ Forall (λ c, in_class k c = true) (take n s).
Proof.
  revert n. induction s as [|c s IH]; intros n; simpl.
  - intros ?. assert (n = 0%nat) as -> by lia. by split.
  - destruct n as [|n]; [by split|].
    destruct (in_class k c) eqn:E; [|lia]. intros ?.
    destruct (IH n) as [? ?]; [lia|]. simpl. split; [lia|by constructor].
Qed.

Lemma run_length_drop k s : class_end k (drop (run_length k s) s) = true.
Proof.
  induction s as [|c s IH]; simpl; [done|].
  destruct (in_class k c) eqn:E; simpl; [done|]. by rewrite E.
Qed.

(** ** The matcher, item by item *)

Lemma match_here_lit w p rest :
  match_here ((Lit <$> w) ++ p) (w ++ rest) = match_here p rest.
Proof. induction w as [|c w IH]; simpl; [done|]. by rewrite N.eqb_refl. Qed.

Lemma match_here_lit_inv w p s m :
  match_here ((Lit <$> w) ++ p) s = Some m →
  ∃ rest, s = w ++ rest ∧ match_here p rest = Some m.
Proof.
  revert s. induction w as [|c w IH]; intros s; simpl; [by eauto|].
  destruct s as [|x s]; [done|].
  destruct (x =? c) eqn:E; [|done]. apply N.eqb_eq in E as ->.
  intros (rest & -> & ?)%IH. by eauto.
Qed.

Lemma match_here_group_greedy name k p r rest caps :
  token k r = true → class_end k rest = true →
  match_here p rest = Some caps →
  match_here (Group name k :: p) (r ++ rest) = Some ((name, r) :: caps).
Proof.
  intros [Hne Hr]%token_Forall Hend Hp. simpl.
  rewrite run_length_app by done.
  rewrite (backtrack_longest _ _ caps).
  - by rewrite take_app_length.
  - destruct r; simpl; [done|lia].
  - by rewrite drop_app_length.
Qed.

Lemma match_here_group_inv name k p s m :
  match_here (Group name k :: p) s = Some m →
  ∃ r rest caps,
    s = r ++ rest ∧ token k r = true ∧ m = (name, r) :: caps
    ∧ match_here p rest = Some caps ∧ (p = [] → class_end k rest = true).
Proof.
  simpl. destruct backtrack as [[n caps]|] eqn:E; [|done].
  intros [= <-]. apply backtrack_Some in E as ([? ?] & Hn & Hlonger).
  destruct (run_length_take k s n) as [Hlen Hall]; [done|].
  exists (take n s), (drop n s), caps. split_and!; try done.
  - by rewrite take_drop.
  - apply token_Forall. split; [|done].
    intros E. rewrite E in Hlen. simpl in Hlen. lia.
  - intros ->. destruct (decide (n = run_length k s)) as [->|].
    + apply run_length_drop.
    + assert (Hmax := Hlonger (run_length k s) ltac:(lia)).
      simpl in Hmax. discriminate.
Qed.

(** A group followed by a literal space never gives characters back:
    every shorter run is followed by a character of the class, which is
    not a space. *)
Lemma match_here_group_space name k w p r rest :
  Forall (λ c, in_class k c = true) r → class_end k rest = true →
  match_here (Group name k :: (Lit <$> 32 :: w) ++ p) (r ++ rest)
  = match r with
    | [] => None
    | _ :: _ =>
        match match_here ((Lit <$> 32 :: w) ++ p) rest with
        | Some caps => Some ((name, r) :: caps)
        | None => None
        end
    end.
Proof.
  intros Hr Hend.
  destruct r as [|c r];
    [|destruct (match_here ((Lit <$> 32 :: w) ++ p) rest) as [caps|] eqn:E].
  - cbn [app match_here]. change (run_length k rest) with
      (run_length k ([] ++ rest)). by rewrite run_length_app.
  - apply match_here_group_greedy; [|done..].
    apply token_Forall. by split.
  - cbn [match_here]. rewrite run_length_app by done.
    set (n := length (c :: r)). set (try := λ _, _).
    assert (backtrack try n = None) as ->; [|done].
    apply backtrack_None. intros j [? ?]. unfold try.
    destruct (decide (j = n)) as [->|].
    + unfold n. by rewrite drop_app_length.
    + rewrite drop_app_le by (unfold n in *; lia).
      destruct (drop j (c :: r)) as [|x r'] eqn:Ed.
      { apply (f_equal length) in Ed. rewrite length_drop in Ed.
        simpl in Ed. unfold n in *. simpl in *. lia. }
      assert (in_class k x = true) as Hx.
      { apply (Forall_drop _ j) in Hr. rewrite Ed in Hr.
        by apply Forall_cons_1 in Hr as [? _]. }
      simpl. by rewrite (eqb_space_class k x Hx).
Qed.

(** ** [re.search] *)

Lemma re_search_leftmost p s i m :
  (i ≤ length s)%nat → match_here p (drop i s) = Some m →
  (∀ j, (j < i)%nat → match_here p (drop j s) = None) →
  re_search p s = Some m.
Proof.
  revert i. induction s as [|c s IH]; intros i Hi Hm Hno.
  - simpl in Hi. assert (i = 0%nat) as -> by lia. simpl in *. by rewrite Hm.
  - destruct i as [|i].
    + simpl in *. by rewrite Hm.
    + assert (H0 := Hno 0%nat ltac:(lia)). rewrite drop_0 in H0.
      cbn [re_search]. rewrite H0.
      apply (IH i); [simpl in Hi; lia|done|].
      intros j ?. apply (Hno (S j)). lia.
Qed.

Lemma re_search_Some p s m :
  re_search p s = Some m →
  ∃ i, (i ≤ length s)%nat ∧ match_here p (drop i s) = Some m
       ∧ ∀ j, (j < i)%nat → match_here p (drop j s) = None.
Proof.
  induction s as [|c s IH]; simpl.
  - destruct (match_here p []) eqn:E; [|done]. intros [= <-].
    exists 0%nat. split_and!; [done|done|intros; lia].
  - destruct (match_here p (c :: s)) eqn:E.
    + intros [= <-]. exists 0%nat. split_and!; [lia|done|intros; lia].
    + intros (i & ? & ? & Hno)%IH. exists (S i). split_and!; [lia|done|].
      intros [|j] ?; [done|]. apply Hno. lia.
Qed.

Lemma re_search_None p s :
  re_search p s = None ↔
  ∀ i, (i ≤ length s)%nat → match_here p (drop i s) = None.
Proof.
  induction s as [|c s IH]; simpl.
  - destruct (match_here p []) eqn:E.
    + split; [done|]. intros H. specialize (H 0%nat). simpl in H.
      rewrite E in H. by apply H.
    + split; [|done]. intros _ i ?. by rewrite drop_nil.
  - destruct (match_here p (c :: s)) eqn:E.
    + split; [done|]. intros H. specialize (H 0%nat). simpl in H.
      rewrite E in H. apply H. lia.
    + rewrite IH. split.
      * intros H [|i] ?; [done|]. apply H. lia.
      * intros H i ?. apply (H (S i)). lia.
Qed.

(** ** The pattern of the script *)

Lemma log_pattern_eq :
  log_pattern =
    (Lit <$> str_of "SRC=") ++ Group "src_ip" NonSpace ::
    (Lit <$> 32 :: str_of "DST=") ++ Group "dst_ip" NonSpace ::
    (Lit <$> 32 :: str_of "PROTO=") ++ Group "protocol" NonSpace ::
    (Lit <$> 32 :: str_of "SPT=") ++ Group "src_port" Digit ::
    (Lit <$> 32 :: str_of "DPT=") ++ Group "dst_port" Digit ::
    (Lit <$> 32 :: str_of "ACTION=") ++ [Group "action" NonSpace].
Proof. reflexivity. Qed.

Lemma tokens_eq v post :
  tokens v ++ post =
    str_of "SRC=" ++ src_ip v ++ (32 :: str_of "DST=") ++ dst_ip v
    ++ (32 :: str_of "PROTO=") ++ protocol v
    ++ (32 :: str_of "SPT=") ++ src_port v
    ++ (32 :: str_of "DPT=") ++ dst_port v
    ++ (32 :: str_of "ACTION=") ++ action v ++ post.
Proof. unfold tokens. rewrite <- !app_assoc. reflexivity. Qed.

Lemma valid_tokens v :
  valid v = true ↔
  token NonSpace (src_ip v) = true ∧ token NonSpace (dst_ip v) = true
  ∧ token NonSpace (protocol v) = true
  ∧ token Digit (src_port v) = true ∧ token Digit (dst_port v) = true
  ∧ token NonSpace (action v) = true.
Proof. unfold valid. rewrite !andb_true_iff. tauto. Qed.

Lemma class_end_NonSpace rest : class_end NonSpace rest = token_end rest.
Proof. destruct rest as [|c rest]; [done|]. simpl. apply negb_involutive. Qed.

(** Where the six tokens stand, the pattern matches and captures
    exactly their values. *)
Lemma match_here_tokens v post :
  valid v = true → token_end post = true →
  match_here log_pattern (tokens v ++ post) = Some (record_of v).
Proof.
  intros (Ha & Hb & Hc & Hd & He & Hf)%valid_tokens Hpost.
  rewrite log_pattern_eq, tokens_eq. unfold record_of.
  repeat (rewrite match_here_lit;
          apply match_here_group_greedy; [done|reflexivity|]).
  rewrite match_here_lit. apply match_here_group_greedy; [done| |done].
  by rewrite class_end_NonSpace.
Qed.

(** Where the pattern matches, the six tokens stand, and the captures
    are their values. *)
Lemma match_here_shape t m :
  match_here log_pattern t = Some m →
  ∃ v post, t = tokens v ++ post ∧ valid v = true
            ∧ token_end post = true ∧ m = record_of v.
Proof.
  rewrite log_pattern_eq. intros H.
  apply match_here_lit_inv in H as (? & -> & H).
  apply match_here_group_inv in H as (a & ? & ? & -> & Ha & -> & H & _).
  apply match_here_lit_inv in H as (? & -> & H).
  apply match_here_group_inv in H as (b & ? & ? & -> & Hb & -> & H & _).
  apply match_here_lit_inv in H as (? & -> & H).
  apply match_here_group_inv in H as (c & ? & ? & -> & Hc & -> & H & _).
  apply match_here_lit_inv in H as (? & -> & H).
  apply match_here_group_inv in H as (d & ? & ? & -> & Hd & -> & H & _).
  apply match_here_lit_inv in H as (? & -> & H).
  apply match_here_group_inv in H as (e & ? & ? & -> & He & -> & H & _).
  apply match_here_lit_inv in H as (? & -> & H).
  apply match_here_group_inv in H
    as (f & post & ? & -> & Hf & -> & [= <-] & Hend).
  exists (mkFields a b c d e f), post. split_and!.
  - by rewrite tokens_eq.
  - by apply valid_tokens.
  - rewrite <- class_end_NonSpace. by apply Hend.
  - done.
Qed.

Lemma match_here_group_forced name k w p r rest :
  token k r = true → class_end k rest = true →
  match_here (Group name k :: (Lit <$> 32 :: w) ++ p) (r ++ rest)
  = match match_here ((Lit <$> 32 :: w) ++ p) rest with
    | Some caps => Some ((name, r) :: caps)
    | None => None
    end.
Proof.
  intros [Hne Hr]%token_Forall Hend.
  rewrite match_here_group_space by done. by destruct r.
Qed.

(** A port value that runs into a character that is neither a digit nor
    the space: the pattern does not match there, it does not settle for
    the digits before that character. *)
Lemma match_here_bad_src_port a b c d x rest :
  token NonSpace a = true → token NonSpace b = true →
  token NonSpace c = true →
  Forall (λ y, is_digit y = true) d → is_digit x = false → x ≠ 32 →
  match_here log_pattern
    (str_of "SRC=" ++ a ++ str_of " DST=" ++ b ++ str_of " PROTO=" ++ c
     ++ str_of " SPT=" ++ d ++ x :: rest) = None.
Proof.
  intros Ha Hb Hc Hd Hx Hx'. rewrite log_pattern_eq.
  change (str_of " DST=") with (32 :: str_of "DST=").
  change (str_of " PROTO=") with (32 :: str_of "PROTO=").
  change (str_of " SPT=") with (32 :: str_of "SPT=").
  rewrite match_here_lit.
  do 3 (rewrite match_here_group_forced by (done || reflexivity);
        rewrite match_here_lit).
  rewrite match_here_group_space; [|done|simpl; by rewrite Hx].
  assert (match_here ((Lit <$> 32 :: str_of "DPT=") ++
            Group "dst_port" Digit :: (Lit <$> 32 :: str_of "ACTION=")
            ++ [Group "action" NonSpace]) (x :: rest) = None) as ->.
  { cbn. apply N.eqb_neq in Hx'. by rewrite Hx'. }
  by destruct d.
Qed.

Lemma match_here_bad_dst_port v d x rest :
  valid v = true →
  Forall (λ y, is_digit y = true) d → is_digit x = false → x ≠ 32 →
  match_here log_pattern
    (str_of "SRC=" ++ src_ip v ++ str_of " DST=" ++ dst_ip v
     ++ str_of " PROTO=" ++ protocol v ++ str_of " SPT=" ++ src_port v
     ++ str_of " DPT=" ++ d ++ x :: rest) = None.
Proof.
  intros (Ha & Hb & Hc & Hd' & _)%valid_tokens Hd Hx Hx'.
  rewrite log_pattern_eq.
  change (str_of " DST=") with (32 :: str_of "DST=").
  change (str_of " PROTO=") with (32 :: str_of "PROTO=").
  change (str_of " SPT=") with (32 :: str_of "SPT=").
  change (str_of " DPT=") with (32 :: str_of "DPT=").
  rewrite match_here_lit.
  do 4 (rewrite match_here_group_forced by (done || reflexivity);
        rewrite match_here_lit).
  rewrite match_here_group_space; [|done|simpl; by rewrite Hx].
  assert (match_here ((Lit <$> 32 :: str_of "ACTION=")
            ++ [Group "action" NonSpace]) (x :: rest) = None) as ->.
  { cbn. apply N.eqb_neq in Hx'. by rewrite Hx'. }
  by destruct d.
Qed.

(** ** [strip] *)

Lemma lstrip_app_head s1 x s2 :
  is_space x = false → lstrip (s1 ++ x :: s2) = lstrip s1 ++ x :: s2.
Proof.
  intros Hx. induction s1 as [|c s1 IH]; simpl; [by rewrite Hx|].
  by destruct (is_space c).
Qed.

Lemma lstrip_decomp s :
  ∃ ws, Forall (λ c, is_space c = true) ws ∧ s = ws ++ lstrip s.
Proof.
  induction s as [|c s (ws & Hws & IH)]; [by exists []|]. simpl.
  destruct (is_space c) eqn:E; [|by exists []].
  exists (c :: ws). split; [by constructor|]. simpl. by rewrite <- IH.
Qed.

Lemma rstrip_app_last s1 y s2 :
  is_space y = false →
  rstrip ((s1 ++ [y]) ++ s2) = (s1 ++ [y]) ++ rstrip s2.
Proof.
  intros Hy. unfold rstrip.
  rewrite !rev_app_distr. simpl. rewrite lstrip_app_head by done.
  rewrite rev_app_distr. simpl. by rewrite rev_involutive.
Qed.

Lemma rstrip_decomp s :
  ∃ ws, Forall (λ c, is_space c = true) ws ∧ s = rstrip s ++ ws.
Proof.
  destruct (lstrip_decomp (rev s)) as (ws & Hws & E).
  exists (rev ws). split.
  - by apply List.Forall_rev.
  - unfold rstrip. rewrite <- rev_app_distr, <- E. by rewrite rev_involutive.
Qed.

Lemma token_end_rstrip post :
  token_end post = true → token_end (rstrip post) = true.
Proof.
  destruct (rstrip_decomp post) as (ws & _ & E).
  destruct (rstrip post) as [|c r]; [done|]. by rewrite E.
Qed.

Lemma token_end_app_space post ws :
  token_end post = true → Forall (λ c, is_space c = true) ws →
  token_end (post ++ ws) = true.
Proof.
  destruct post as [|c post]; [|done]. intros _ Hws.
  by destruct Hws.
Qed.

Lemma tokens_last v :
  valid v = true → ∃ T y, tokens v = T ++ [y] ∧ is_space y = false.
Proof.
  intros (_ & _ & _ & _ & _ & [Hne Hf]%token_Forall)%valid_tokens.
  assert (∃ f y, action v = f ++ [y]) as (f & y & E).
  { revert Hne. generalize (action v). intros l.
    induction l as [|y f _] using rev_ind; [done|by eauto]. }
  rewrite E in Hf. apply Forall_app in Hf as [_ Hy].
  apply List.Forall_inv in Hy. simpl in Hy. apply negb_true_iff in Hy.
  exists (str_of "SRC=" ++ src_ip v ++ str_of " DST=" ++ dst_ip v
          ++ str_of " PROTO=" ++ protocol v ++ str_of " SPT=" ++ src_port v
          ++ str_of " DPT=" ++ dst_port v ++ str_of " ACTION=" ++ f), y.
  split; [|done]. unfold tokens. rewrite E, <- !app_assoc. reflexivity.
Qed.

(** Stripping a line that holds the six tokens leaves them in place. *)
Lemma strip_tokens pre v post :
  valid v = true →
  strip (pre ++ tokens v ++ post) = lstrip pre ++ tokens v ++ rstrip post.
Proof.
  intros (T & y & E & Hy)%tokens_last. unfold strip.
  change (tokens v) with (83 :: drop 1 (tokens v)) at 1.
  rewrite <- app_comm_cons, lstrip_app_head by done.
  change (83 :: drop 1 (tokens v) ++ post) with (tokens v ++ post).
  rewrite E, !app_assoc, rstrip_app_last by done.
  by rewrite <- !app_assoc.
Qed.

Lemma strip_decomp line :
  ∃ ws1 ws2, Forall (λ c, is_space c = true) ws1
             ∧ Forall (λ c, is_space c = true) ws2
             ∧ line = ws1 ++ strip line ++ ws2.
Proof.
  destruct (lstrip_decomp line) as (ws1 & H1 & E1).
  destruct (rstrip_decomp (lstrip line)) as (ws2 & H2 & E2).
  exists ws1, ws2. split_and!; [done..|]. unfold strip.
  by rewrite <- E2.
Qed.

(** ** Occurrences of the six tokens and matches of the pattern *)

Lemma occurs_at_match s i v :
  occurs_at s i v → match_here log_pattern (drop i s) = Some (record_of v).
Proof.
  intros (post & _ & -> & Hv & Hpost). by apply match_here_tokens.
Qed.

Lemma match_occurs_at s i m :
  (i ≤ length s)%nat → match_here log_pattern (drop i s) = Some m →
  ∃ v, occurs_at s i v ∧ m = record_of v.
Proof.
  intros Hi (v & post & E & Hv & Hpost & ->)%match_here_shape.
  exists v. split; [|done]. by exists post.
Qed.

Lemma parse_log_line_value line :
  value (parse_log_line line) = re_search log_pattern (strip line).
Proof. unfold parse_log_line. by destruct re_search. Qed.

Lemma parse_log_line_stdout line :
  stdout (parse_log_line line) =
    [diagnostic line].
Proof. unfold diagnostic, parse_log_line. by destruct re_search. Qed.

(** The action value of an occurrence can always be read up to the next
    whitespace. *)
Lemma well_formed_occurs s :
  well_formed s → ∃ i v, occurs_at s i v.
Proof.
  intros (pre & v & post & -> & Hv).
  set (n := run_length NonSpace post).
  destruct (run_length_take NonSpace post n) as [_ Hg]; [done|].
  exists (length pre),
    (mkFields (src_ip v) (dst_ip v) (protocol v) (src_port v) (dst_port v)
              (action v ++ take n post)),
    (drop n post).
  apply valid_tokens in Hv as (Ha & Hb & Hc & Hd & He & Hf). split_and!.
  - rewrite length_app. lia.
  - rewrite drop_app_length. rewrite <- (take_drop n post) at 1.
    unfold tokens. cbn [src_ip dst_ip protocol src_port dst_port action].
    by rewrite <- !app_assoc.
  - apply valid_tokens.
    cbn [src_ip dst_ip protocol src_port dst_port action].
    split_and!; try done.
    apply token_Forall in Hf as [Hne Hf]. apply token_Forall. split.
    + destruct (action v); [done|discriminate].
    + by apply Forall_app.
  - rewrite <- class_end_NonSpace. apply run_length_drop.
Qed.

Lemma occurs_well_formed s i v : occurs_at s i v → well_formed s.
Proof.
  intros (post & _ & E & Hv & _). exists (take i s), v, post.
  split; [|done]. by rewrite <- E, take_drop.
Qed.

Lemma well_formed_strip line : well_formed line ↔ well_formed (strip line).
Proof.
  split.
  - intros (pre & v & post & -> & Hv). rewrite strip_tokens by done.
    by exists (lstrip pre), v, (rstrip post).
  - intros (pre & v & post & E & Hv).
    destruct (strip_decomp line) as (ws1 & ws2 & _ & _ & Eline).
    exists (ws1 ++ pre), v, (post ++ ws2). split; [|done].
    rewrite Eline at 1. rewrite E. by rewrite <- !app_assoc.
Qed.

(** [parse_log_line] returns a record exactly on the lines that hold the
    six tokens. *)
Lemma parse_Some_well_formed line :
  is_Some (value (parse_log_line line)) ↔ well_formed line.
Proof.
  rewrite parse_log_line_value, well_formed_strip. split.
  - intros [m (i & Hi & Hm & _)%re_search_Some].
    apply match_occurs_at in Hm as (v & Hocc & _); [|done].
    by eapply occurs_well_formed.
  - intros (i & v & Hocc)%well_formed_occurs.
    destruct (re_search log_pattern (strip line)) eqn:E; [by eexists|].
    pose proof (occurs_at_match _ _ _ Hocc) as Hm.
    destruct Hocc as (_ & Hi & _).
    rewrite (proj1 (re_search_None _ _) E i Hi) in Hm. discriminate.
Qed.

(** ** The line parser *)

(** C1, as amended.  A line that holds the six tokens in order, one
    space between them, the values non-whitespace and the ports digits,
    parses to the record of exactly these six values, whatever text
    stands before the tokens and after them, provided the six tokens do
    not begin later than some other occurrence of the pattern (none
    begins in the text before them) and the text after the action value
    is empty or begins with whitespace. *)
Theorem parse_extracts_tokens pre v post :
  valid v = true → token_end post = true →
  (∀ j w, (j < length pre)%nat → ¬ occurs_at (pre ++ tokens v ++ post) j w) →
  value (parse_log_line (pre ++ tokens v ++ post)) = Some (record_of v).
Proof.
  intros Hv Hpost Hno. rewrite parse_log_line_value, strip_tokens by done.
  apply token_end_rstrip in Hpost.
  destruct (lstrip_decomp pre) as (ws & Hws & Epre).
  destruct (rstrip_decomp post) as (ws2 & Hws2 & Epost).
  revert Hpost Epre Epost. generalize (lstrip pre) (rstrip post).
  intros pre' post' Hpost -> ->.
  apply (re_search_leftmost _ _ (length pre')).
  - rewrite length_app. lia.
  - rewrite drop_app_length. by apply match_here_tokens.
  - intros j Hj.
    destruct (match_here log_pattern (drop j (pre' ++ tokens v ++ post')))
      as [m|] eqn:E; [exfalso|done].
    assert (j ≤ length (pre' ++ tokens v ++ post'))%nat as Hle
      by (rewrite length_app; lia).
    apply match_occurs_at in E as (w & (rest & _ & Ed & Hw & Hend) & _);
      [|done].
    apply (Hno (length ws + j)%nat w); [rewrite length_app; lia|].
    exists (rest ++ ws2). split_and!.
    + rewrite !length_app in *. lia.
    + rewrite <- !app_assoc, drop_app_add'; [|done].
      rewrite (app_assoc pre'), (app_assoc (pre' ++ tokens v)).
      rewrite <- (app_assoc pre'), drop_app_le by done.
      rewrite Ed. by rewrite <- app_assoc.
    + done.
    + by apply token_end_app_space.
Qed.

Lemma parse_extracts_tokens_witness :
  value (parse_log_line
           (str_of "Jan 1 00:00:00 kernel: " ++ tokens event_blocked
            ++ str_of " LEN=60"))
  = Some (record_of event_blocked).
Proof.
  apply parse_extracts_tokens; [reflexivity|reflexivity|].
  intros j w Hj Hocc. apply occurs_at_match in Hocc.
  do 23 (destruct j as [|j]; [vm_compute in Hocc; discriminate Hocc|]).
  vm_compute in Hj. lia.
Defined.

(** C1 as stated fails on two counts: an occurrence of the pattern in
    the text before the tokens wins, and text that follows the action
    value without whitespace is read into the action. *)
Lemma parse_extracts_tokens_counterexample :
  valid event_blocked = true
  ∧ value (parse_log_line
             ((tokens event_allowed ++ str_of " ") ++ tokens event_blocked
              ++ []))
    = Some (record_of event_allowed)
  ∧ record_of event_allowed ≠ record_of event_blocked
  ∧ value (parse_log_line ([] ++ tokens event_blocked ++ str_of ",SYN"))
    = Some [("src_ip", str_of "192.168.1.5"); ("dst_ip", str_of "10.0.0.1");
            ("protocol", str_of "TCP"); ("src_port", str_of "443");
            ("dst_port", str_of "51515"); ("action", str_of "BLOCKED,SYN")]
  ∧ ¬ (∀ pre v post, valid v = true →
         value (parse_log_line (pre ++ tokens v ++ post))
         = Some (record_of v)).
Proof.
  split_and!; [reflexivity|vm_compute; reflexivity|discriminate
              |vm_compute; reflexivity|].
  intros H.
  specialize (H (tokens event_allowed ++ str_of " ") event_blocked []
                eq_refl).
  vm_compute in H. discriminate H.
Qed.

Lemma starts_with_app K w : starts_with K (K ++ w) = true.
Proof. induction K as [|k K IH]; [done|]. simpl. by rewrite N.eqb_refl. Qed.

Lemma starts_with_inv K s :
  starts_with K s = true → ∃ w, s = K ++ w.
Proof.
  revert s. induction K as [|k K IH]; intros s; [by exists s|].
  destruct s as [|c s]; [done|]. simpl.
  intros [->%N.eqb_eq [w ->]%IH]%andb_true_iff. by exists w.
Qed.

Lemma positions_from_unfold i K s :
  positions_from i K s
  = (if starts_with K s then [i] else [])
    ++ match s with
       | [] => []
       | _ :: s' => positions_from (S i) K s'
       end.
Proof. by destruct s. Qed.

(** A key that stands somewhere in a line is among its positions. *)
Lemma positions_from_elem i u K w :
  (i + length u)%nat ∈ positions_from i K (u ++ K ++ w).
Proof.
  revert i. induction u as [|c u IH]; intros i.
  - cbn [app length]. rewrite Nat.add_0_r, positions_from_unfold.
    rewrite starts_with_app. apply elem_of_app. left. by left.
  - cbn [app length positions_from]. apply elem_of_app. right.
    replace (i + S (length u))%nat with (S i + length u)%nat by lia.
    apply IH.
Qed.

Lemma positions_from_inv i K s j :
  j ∈ positions_from i K s →
  ∃ n w, j = (i + n)%nat ∧ (n ≤ length s)%nat ∧ drop n s = K ++ w.
Proof.
  revert i. induction s as [|c s IH]; intros i; cbn [positions_from].
  - rewrite app_nil_r. destruct (starts_with K []) eqn:E; [|by intros ?%elem_of_nil].
    intros ->%list_elem_of_singleton. apply starts_with_inv in E as [w E].
    exists 0%nat, w. split_and!; [lia|done|done].
  - intros [Hj|Hj]%elem_of_app.
    + destruct (starts_with K (c :: s)) eqn:E; [|by apply elem_of_nil in Hj].
      apply list_elem_of_singleton in Hj as ->.
      apply starts_with_inv in E as [w E].
      exists 0%nat, w. split_and!; [lia|simpl; lia|done].
    + apply IH in Hj as (n & w & -> & Hn & Hd).
      exists (S n), w. split_and!; [lia|simpl; lia|done].
Qed.

Lemma positions_elem u K w : length u ∈ positions K (u ++ K ++ w).
Proof. apply (positions_from_elem 0). Qed.

(** Two runs of digits that end differently do not line up. *)
Lemma digit_run_clash p R d x rest :
  Forall (λ y, is_digit y = true) p → Forall (λ y, is_digit y = true) d →
  is_digit x = false → x ≠ 32 → p ++ 32 :: R = d ++ x :: rest → False.
Proof.
  intros Hp. revert d. induction Hp as [|c p Hc _ IH]; intros d Hd Hx Hx'.
  - destruct Hd as [|c d Hc _]; cbn [app]; intros [= E1 E2].
    + by apply Hx'.
    + subst c. by rewrite space_not_digit in Hc.
  - destruct Hd as [|c' d Hc' Hd]; cbn [app]; intros [= E1 E2].
    + subst c. by rewrite Hx in Hc.
    + by eapply IH.
Qed.

(** In a well-formed line each port key is followed by digits and then
    the space. *)
Lemma well_formed_ports line :
  well_formed line →
  (∃ u p R, line = u ++ str_of "SPT=" ++ p ++ 32 :: R
            ∧ token Digit p = true)
  ∧ (∃ u p R, line = u ++ str_of "DPT=" ++ p ++ 32 :: R
              ∧ token Digit p = true).
Proof.
  intros (pre & v & post & -> & Hv).
  apply valid_tokens in Hv as (_ & _ & _ & Hd & He & _). split.
  - exists (pre ++ str_of "SRC=" ++ src_ip v ++ str_of " DST=" ++ dst_ip v
            ++ str_of " PROTO=" ++ protocol v ++ [32]),
      (src_port v),
      (str_of "DPT=" ++ dst_port v ++ str_of " ACTION=" ++ action v ++ post).
    split; [|done]. unfold tokens. rewrite <- !app_assoc. reflexivity.
  - exists (pre ++ str_of "SRC=" ++ src_ip v ++ str_of " DST=" ++ dst_ip v
            ++ str_of " PROTO=" ++ protocol v ++ str_of " SPT="
            ++ src_port v ++ [32]),
      (dst_port v), (str_of "ACTION=" ++ action v ++ post).
    split; [|done]. unfold tokens. rewrite <- !app_assoc. reflexivity.
Qed.

(** Every key stands in a well-formed line. *)
Lemma well_formed_keys line K :
  well_formed line → K ∈ keys → ∃ u w, line = u ++ str_of K ++ w.
Proof.
  intros (pre & v & post & -> & _) HK. unfold tokens, keys in *.
  repeat (apply elem_of_cons in HK as [->|HK]); [..|by apply elem_of_nil in HK].
  - exists pre. eexists. reflexivity.
  - exists (pre ++ str_of "SRC=" ++ src_ip v ++ [32]). eexists.
    rewrite <- !app_assoc. reflexivity.
  - exists (pre ++ str_of "SRC=" ++ src_ip v ++ str_of " DST=" ++ dst_ip v
            ++ [32]). eexists. rewrite <- !app_assoc. reflexivity.
  - exists (pre ++ str_of "SRC=" ++ src_ip v ++ str_of " DST=" ++ dst_ip v
            ++ str_of " PROTO=" ++ protocol v ++ [32]). eexists.
    rewrite <- !app_assoc. reflexivity.
  - exists (pre ++ str_of "SRC=" ++ src_ip v ++ str_of " DST=" ++ dst_ip v
            ++ str_of " PROTO=" ++ protocol v ++ str_of " SPT="
            ++ src_port v ++ [32]). eexists.
    rewrite <- !app_assoc. reflexivity.
  - exists (pre ++ str_of "SRC=" ++ src_ip v ++ str_of " DST=" ++ dst_ip v
            ++ str_of " PROTO=" ++ protocol v ++ str_of " SPT="
            ++ src_port v ++ str_of " DPT=" ++ dst_port v ++ [32]). eexists.
    rewrite <- !app_assoc. reflexivity.
Qed.

(** A port key that stands once in the line, with a character that is
    neither a digit nor the space after its digits: the line is not
    well-formed. *)
Lemma bad_port_ill_formed K line i d x rest :
  K = "SPT="%string ∨ K = "DPT="%string →
  positions (str_of K) line = [i] →
  drop i line = str_of K ++ d ++ x :: rest →
  Forall (λ y, is_digit y = true) d → is_digit x = false → x ≠ 32 →
  ¬ well_formed line.
Proof.
  intros HK Hpos Hdrop Hd Hx Hx' [Hs Hdp]%well_formed_ports.
  assert (∃ u p R, line = u ++ str_of K ++ p ++ 32 :: R
                   ∧ token Digit p = true) as (u & p & R & E & Hp)
    by (by destruct HK as [->| ->]).
  pose proof (positions_elem u (str_of K) (p ++ 32 :: R)) as Hin.
  rewrite <- E, Hpos in Hin. apply list_elem_of_singleton in Hin as <-.
  rewrite E, drop_app_length in Hdrop.
  apply app_inv_head in Hdrop.
  apply token_Forall in Hp as [_ Hp].
  by eapply (digit_run_clash p R d x rest).
Qed.

(** C2, as amended.  A line that does not hold the six tokens in the
    fixed order, one space between them, with non-whitespace values and
    digit-only ports, parses to [None].  In particular: a line in which
    one of the six keys stands nowhere; and a line whose only [SPT=]
    (or only [DPT=]) is followed, after its digits if any, by a character
    that is neither a digit nor the space -- the digits before that
    character are never taken as the port. *)
Theorem parse_ill_formed_NoMatch line :
  (¬ well_formed line → value (parse_log_line line) = None)
  ∧ (∀ K, K ∈ keys → positions (str_of K) line = [] →
       value (parse_log_line line) = None)
  ∧ (∀ K i d x rest,
       K = "SPT="%string ∨ K = "DPT="%string →
       positions (str_of K) line = [i] →
       drop i line = str_of K ++ d ++ x :: rest →
       Forall (λ y, is_digit y = true) d → is_digit x = false → x ≠ 32 →
       value (parse_log_line line) = None).
Proof.
  assert (¬ well_formed line → value (parse_log_line line) = None) as Hill.
  { intros Hill.
    destruct (value (parse_log_line line)) as [m|] eqn:E; [|done].
    destruct Hill. apply parse_Some_well_formed. by rewrite E. }
  split_and!; [done| |].
  - intros K HK Hpos. apply Hill. intros Hwf.
    destruct (well_formed_keys line K Hwf HK) as (u & w & E).
    pose proof (positions_elem u (str_of K) w) as Hin.
    rewrite <- E, Hpos in Hin. by apply elem_of_nil in Hin.
  - intros K i d x rest HK Hpos Hdrop Hd Hx Hx'. apply Hill.
    by eapply bad_port_ill_formed.
Qed.

Lemma parse_ill_formed_NoMatch_witness :
  value (parse_log_line (str_of
    "DST=10.0.0.1 SRC=192.168.1.5 PROTO=TCP SPT=443 DPT=51515 ACTION=BLOCKED"))
  = None
  ∧ value (parse_log_line (str_of
      "SRC=192.168.1.5 DST=10.0.0.1 SPT=443 DPT=51515 ACTION=BLOCKED"))
    = None
  ∧ value (parse_log_line (str_of
      "SRC=192.168.1.5 DST=10.0.0.1 PROTO=TCP SPT=44x3 DPT=51515 ACTION=BLOCKED"))
    = None.
Proof.
  split_and!.
  - apply (proj1 (parse_ill_formed_NoMatch _)).
    intros [m Hm]%parse_Some_well_formed. vm_compute in Hm. discriminate Hm.
  - apply (proj1 (proj2 (parse_ill_formed_NoMatch _)) "PROTO="%string).
    + vm_compute. repeat constructor.
    + vm_compute. reflexivity.
  - apply (proj2 (proj2 (parse_ill_formed_NoMatch _)) "SPT="%string 39%nat
             (str_of "44") 120 (str_of "3 DPT=51515 ACTION=BLOCKED")).
    + by left.
    + vm_compute. reflexivity.
    + vm_compute. reflexivity.
    + repeat constructor.
    + vm_compute. reflexivity.
    + lia.
Defined.

(** C2 as stated fails: a line with a non-digit in a port token, or with
    tokens out of order, still parses when it also holds the six tokens
    well formed. *)
Lemma parse_ill_formed_NoMatch_counterexample :
  value (parse_log_line
           (str_of "SRC=1.1.1.1 DST=2.2.2.2 PROTO=TCP SPT=44x3 DPT=80 ACTION=ALLOWED "
            ++ tokens event_blocked))
  = Some (record_of event_blocked)
  ∧ ¬ (∀ line pre d x rest,
         line = pre ++ str_of "SPT=" ++ d ++ x :: rest →
         Forall (λ y, is_digit y = true) d → is_digit x = false → x ≠ 32 →
         value (parse_log_line line) = None).
Proof.
  split; [vm_compute; reflexivity|]. intros H.
  specialize (H (str_of "SRC=1.1.1.1 DST=2.2.2.2 PROTO=TCP SPT=44x3 DPT=80 ACTION=ALLOWED "
                 ++ tokens event_blocked)
                (str_of "SRC=1.1.1.1 DST=2.2.2.2 PROTO=TCP ")
                (str_of "44") 120
                (str_of "3 DPT=80 ACTION=ALLOWED " ++ tokens event_blocked)).
  assert (value (parse_log_line
            (str_of "SRC=1.1.1.1 DST=2.2.2.2 PROTO=TCP SPT=44x3 DPT=80 ACTION=ALLOWED "
             ++ tokens event_blocked)) = None) as Hnone.
  { apply H; [vm_compute; reflexivity|repeat constructor
             |vm_compute; reflexivity|lia]. }
  vm_compute in Hnone. discriminate Hnone.
Qed.

Lemma parse_log_line_outcomes line :
  value (parse_log_line line) = None
  ∨ ∃ v, valid v = true ∧ value (parse_log_line line) = Some (record_of v).
Proof.
  rewrite parse_log_line_value.
  destruct (re_search log_pattern (strip line)) as [m|] eqn:E; [right|by left].
  apply re_search_Some in E as (i & _ & Hm & _).
  apply match_here_shape in Hm as (v & _ & _ & Hv & _ & ->). by exists v.
Qed.

Lemma parse_log_line_on_encodable encodable line :
  encodable (diagnostic line) = true →
  parse_log_line_on encodable line
  = ([diagnostic line], Ok (value (parse_log_line line))).
Proof.
  unfold parse_log_line_on, print_on, diagnostic.
  rewrite parse_log_line_value.
  destruct (re_search log_pattern (strip line)); by intros ->.
Qed.

(** C9.  [parse_log_line] raises where its docstring announces a dict or
    [None]: on a line whose diagnostic standard output cannot encode, the
    [print] raises [UnicodeEncodeError], nothing is printed and nothing
    is returned. *)
Theorem parse_log_line_on_raises encodable line :
  encodable (diagnostic line) = false →
  parse_log_line_on encodable line = ([], Raise UnicodeEncodeError).
Proof.
  unfold parse_log_line_on, print_on, diagnostic.
  rewrite parse_log_line_value.
  destruct (re_search log_pattern (strip line)); by intros ->.
Qed.

Lemma parse_log_line_on_raises_witness :
  parse_log_line_on utf8_encodable [0xD800]
  = ([], Raise UnicodeEncodeError).
Proof. apply parse_log_line_on_raises. vm_compute. reflexivity. Defined.

(** C10.  When the pattern occurs more than once in the trimmed line,
    the record holds the values of the leftmost occurrence: an
    occurrence before which no other begins decides the result,
    whatever follows it. *)
Theorem parse_leftmost_occurrence line i v :
  occurs_at (strip line) i v →
  (∀ j w, (j < i)%nat → ¬ occurs_at (strip line) j w) →
  value (parse_log_line line) = Some (record_of v).
Proof.
  intros Hocc Hno. rewrite parse_log_line_value.
  pose proof Hocc as (_ & Hi & _).
  apply (re_search_leftmost _ _ i); [done|by apply occurs_at_match|].
  intros j Hj.
  destruct (match_here log_pattern (drop j (strip line))) as [m|] eqn:E;
    [exfalso|done].
  apply match_occurs_at in E as (w & Hw & _); [|lia]. by apply (Hno j w).
Qed.

Lemma parse_leftmost_occurrence_witness :
  value (parse_log_line
           (str_of "  fw: " ++ tokens event_allowed ++ str_of " "
            ++ tokens event_blocked ++ str_of " "))
  = Some (record_of event_allowed).
Proof.
  apply (parse_leftmost_occurrence _ 4%nat).
  - exists (str_of " " ++ tokens event_blocked).
    split_and!; [vm_compute; lia|vm_compute; reflexivity|reflexivity..].
  - intros j w Hj Hocc. apply occurs_at_match in Hocc.
    do 4 (destruct j as [|j]; [vm_compute in Hocc; discriminate Hocc|]).
    lia.
Defined.

(** ** The aggregator *)

#[global] Instance well_formed_dec line : Decision (well_formed line).
Proof.
  destruct (value (parse_log_line line)) as [m|] eqn:E.
  - left. apply parse_Some_well_formed. by rewrite E.
  - right. intros [m Hm]%parse_Some_well_formed. congruence.
Defined.

Lemma parse_log_line_cases line :
  (well_formed line ∧
     ∃ v, parse_log_line line = ([diagnostic line], Some (record_of v)))
  ∨ (¬ well_formed line ∧ parse_log_line line = ([diagnostic line], None)).
Proof.
  pose proof (parse_log_line_stdout line) as Hout.
  pose proof (parse_Some_well_formed line) as Hwf.
  destruct (parse_log_line_outcomes line) as [E|(v & _ & E)].
  - right. split.
    + intros [m Hm]%Hwf. congruence.
    + destruct (parse_log_line line) as [o r]. simpl in *. congruence.
  - left. split.
    + apply Hwf. by rewrite E.
    + exists v. destruct (parse_log_line line) as [o r]. simpl in *.
      congruence.
Qed.

Lemma for_line_in_spec file parsed_data :
  for_line_in file parsed_data
  = (diagnostic <$> file,
     parsed_data ++ omap (λ line, value (parse_log_line line)) file).
Proof.
  revert parsed_data. induction file as [|line file IH]; intros acc.
  - simpl. unfold io_ret. by rewrite app_nil_r.
  - cbn [for_line_in omap list_omap fmap list_fmap].
    destruct (parse_log_line_cases line) as [[_ [v ->]]|[_ ->]];
      unfold io_bind, value; cbn [fst snd truthy record_of];
      rewrite IH; [|done].
    by rewrite <- app_assoc.
Qed.

(** The records collected are those of the well-formed lines, in the
    order of the lines. *)
Lemma omap_parse_well_formed file :
  Forall2 (λ line d, value (parse_log_line line) = Some d)
    (filter well_formed file)
    (omap (λ line, value (parse_log_line line)) file).
Proof.
  induction file as [|line file IH]; [constructor|].
  cbn [omap list_omap]. rewrite filter_cons.
  destruct (parse_log_line_cases line) as [[Hwf [v E]]|[Hwf E]];
    rewrite E; cbn [value snd]; case_decide; try done.
  constructor; [|done]. by rewrite E.
Qed.

Lemma imap_labels {A} (l : list A) k :
  (imap (λ i d, ((k + i)%nat, d)) l).*1 = seq k (length l)
  ∧ (imap (λ i d, ((k + i)%nat, d)) l).*2 = l.
Proof.
  revert k. induction l as [|x l IH]; intros k; [done|].
  rewrite imap_cons. cbn [fmap list_fmap fst snd length seq].
  rewrite Nat.add_0_r.
  rewrite (imap_ext _ (λ i d, ((S k + i)%nat, d))).
  - destruct (IH (S k)) as [-> ->]. done.
  - intros i y _. simpl. f_equal. lia.
Qed.

Lemma pd_DataFrame_rows (data : list (list (string * list N))) :
  (rows (pd_DataFrame data)).*1 = seq 0 (length data)
  ∧ (rows (pd_DataFrame data)).*2 = data.
Proof. apply (imap_labels data 0). Qed.

Lemma pd_DataFrame_columns (data : list (list (string * list N))) :
  data ≠ [] → Forall (λ d, ∃ v, d = record_of v) data →
  columns (pd_DataFrame data) = field_names.
Proof.
  intros Hne Hall. unfold pd_DataFrame. cbn [columns].
  destruct Hall as [|d data [v ->] Hall]; [done|].
  cbn [fmap list_fmap foldl]. clear Hne.
  change (add_keys [] (record_of v).*1) with field_names.
  induction Hall as [|d data [w ->] _ IH]; [done|].
  cbn [fmap list_fmap foldl].
  change (add_keys field_names (record_of w).*1) with field_names.
  exact IH.
Qed.

Lemma filter_nil_Forall {A} (P : A → Prop) `{!∀ x, Decision (P x)}
    (l : list A) :
  filter P l = [] ↔ Forall (λ x, ¬ P x) l.
Proof.
  induction l as [|x l IH]; [by split|]. rewrite filter_cons.
  case_decide.
  - split; [done|]. by intros [? _]%Forall_cons_1.
  - rewrite IH. split; [by constructor|]. by intros [_ ?]%Forall_cons_1.
Qed.

Lemma analyze_logs_opened fs path file :
  fs path = OpenYields file →
  analyze_logs fs path
  = match omap (λ line, value (parse_log_line line)) file with
    | (_ :: _) as records =>
        (diagnostic <$> file, Ok (Some (pd_DataFrame records)))
    | [] =>
        ((diagnostic <$> file)
           ++ [str_of "No valid log entries were parsed."], Ok None)
    end.
Proof.
  intros E. unfold analyze_logs. rewrite E, for_line_in_spec.
  unfold io_bind. cbn [app].
  destruct (omap _ file); unfold io_ret, print; by rewrite ?app_nil_r.
Qed.

(** C3, as amended.  Over the lines of a file that opens, the loop of
    [analyze_logs] parses each line once, in order (one diagnostic per
    line, in the order of the lines), and collects exactly one record per
    well-formed line, in the order of the lines, nothing removed, sorted
    or reordered.  When at least one line is well-formed, [analyze_logs]
    returns the data frame of these records, labelled 0, 1, 2, ...  *)
Theorem analyze_logs_collects fs path file :
  fs path = OpenYields file → filter well_formed file ≠ [] →
  ∃ records,
    Forall2 (λ line d, value (parse_log_line line) = Some d)
      (filter well_formed file) records
    ∧ for_line_in file [] = (diagnostic <$> file, records)
    ∧ analyze_logs fs path
      = (diagnostic <$> file, Ok (Some (pd_DataFrame records)))
    ∧ columns (pd_DataFrame records) = field_names
    ∧ (rows (pd_DataFrame records)).*1 = seq 0 (length records)
    ∧ (rows (pd_DataFrame records)).*2 = records.
Proof.
  intros E Hne.
  pose proof (omap_parse_well_formed file) as HF2.
  exists (omap (λ line, value (parse_log_line line)) file). split_and!.
  - done.
  - by rewrite for_line_in_spec.
  - rewrite (analyze_logs_opened _ _ _ E).
    destruct (omap _ file); [|done].
    apply Forall2_nil_inv_r in HF2. done.
  - apply pd_DataFrame_columns.
    + intros Hnil. rewrite Hnil in HF2. by apply Forall2_nil_inv_r in HF2.
    + clear. induction file as [|line file IH]; [constructor|].
      cbn [omap list_omap].
      destruct (parse_log_line_cases line) as [[_ [v ->]]|[_ ->]];
        cbn [value snd]; [|done]. constructor; [by exists v|done].
  - apply pd_DataFrame_rows.
  - apply pd_DataFrame_rows.
Qed.

Lemma analyze_logs_collects_witness :
  ∃ records,
    length records = 2%nat
    ∧ value (analyze_logs (fs_with sample_file) "firewall_logs.txt")
      = Ok (Some (pd_DataFrame records)).
Proof.
  destruct (analyze_logs_collects (fs_with sample_file) "firewall_logs.txt"
              sample_file eq_refl)
    as (records & HF2 & _ & Hrun & _).
  { vm_compute. discriminate. }
  exists records. split.
  - apply Forall2_length in HF2. rewrite <- HF2. vm_compute. reflexivity.
  - by rewrite Hrun.
Defined.

Example analyze_logs_sample_file :
  analyze_logs (fs_with sample_file) "firewall_logs.txt"
  = ([ str_of "Matched Line: Jan 1 00:00:00 kernel: "
         ++ tokens event_blocked;
       str_of "Skipped Line: malformed garbage text";
       str_of "Matched Line: " ++ tokens event_allowed ],
     Ok (Some {| columns := field_names;
                 rows := [ (0%nat, record_of event_blocked);
                           (1%nat, record_of event_allowed) ] |})).
Proof. vm_compute. reflexivity. Qed.

(** C3 as stated fails when no line is well-formed: no collection of
    zero records is returned, but [None]. *)
Lemma analyze_logs_collects_counterexample :
  value (analyze_logs (fs_with garbage_file) "firewall_logs.txt") = Ok None
  ∧ ¬ (∀ fs path file,
         fs path = OpenYields file →
         ∃ df, value (analyze_logs fs path) = Ok (Some df)
               ∧ Forall2 (λ line r, value (parse_log_line line) = Some r.2)
                   (filter well_formed file) (rows df)).
Proof.
  split; [vm_compute; reflexivity|]. intros H.
  destruct (H (fs_with garbage_file) "firewall_logs.txt"%string garbage_file
              eq_refl) as (df & Hdf & _).
  vm_compute in Hdf. discriminate Hdf.
Qed.

Lemma omap_parse_ill_formed file :
  Forall (λ line, ¬ well_formed line) file →
  omap (λ line, value (parse_log_line line)) file = [].
Proof.
  intros Hall. pose proof (omap_parse_well_formed file) as HF2.
  rewrite (proj2 (filter_nil_Forall _ _) Hall) in HF2.
  by apply Forall2_nil_inv_l in HF2.
Qed.

(** C4, as amended.  For a file that opens and holds no well-formed
    line -- no line at all, or malformed lines only -- [analyze_logs]
    does not raise; it prints one diagnostic per line, then that no
    valid log entries were parsed, and returns [None], not an empty
    collection. *)
Theorem analyze_logs_no_records fs path file :
  fs path = OpenYields file → Forall (λ line, ¬ well_formed line) file →
  analyze_logs fs path
  = ((diagnostic <$> file) ++ [str_of "No valid log entries were parsed."],
     Ok None).
Proof.
  intros E Hall. rewrite (analyze_logs_opened _ _ _ E).
  by rewrite (omap_parse_ill_formed _ Hall).
Qed.

Lemma analyze_logs_no_records_witness :
  analyze_logs (fs_with garbage_file) "firewall_logs.txt"
  = ([ str_of "Skipped Line: malformed garbage text";
       str_of "Skipped Line: ";
       str_of "No valid log entries were parsed." ],
     Ok None).
Proof.
  apply (analyze_logs_no_records (fs_with garbage_file) _ garbage_file);
    [reflexivity|].
  apply (proj1 (filter_nil_Forall well_formed garbage_file)).
  vm_compute. reflexivity.
Defined.

(** C4 as stated fails already on the empty file. *)
Lemma analyze_logs_no_records_counterexample :
  analyze_logs (fs_with []) "firewall_logs.txt"
  = ([str_of "No valid log entries were parsed."], Ok None)
  ∧ ¬ (∀ fs path file,
         fs path = OpenYields file →
         Forall (λ line, ¬ well_formed line) file →
         ∃ df, value (analyze_logs fs path) = Ok (Some df) ∧ rows df = []).
Proof.
  split; [vm_compute; reflexivity|]. intros H.
  destruct (H (fs_with []) "firewall_logs.txt"%string [] eq_refl)
    as (df & Hdf & _); [constructor|].
  vm_compute in Hdf. discriminate Hdf.
Qed.

(** C5, as amended.  When the file does not exist, [analyze_logs]
    prints an error message and returns [None]; it does not raise.  A
    missing file is not the only case without a collection: [None] is
    also returned when the file is read and holds no well-formed
    line. *)
Theorem analyze_logs_missing_file fs path :
  (fs path = OpenRaises FileNotFoundError →
   analyze_logs fs path = ([str_of "Error: Log file not found."], Ok None))
  ∧ (∀ file, fs path = OpenYields file →
       Forall (λ line, ¬ well_formed line) file →
       value (analyze_logs fs path) = Ok None).
Proof.
  split.
  - intros E. unfold analyze_logs. by rewrite E.
  - intros file E Hall. rewrite (analyze_logs_opened _ _ _ E).
    by rewrite (omap_parse_ill_formed _ Hall).
Qed.

Lemma analyze_logs_missing_file_witness :
  analyze_logs fs_missing "firewall_logs.txt"
  = ([str_of "Error: Log file not found."], Ok None)
  ∧ value (analyze_logs (fs_with garbage_file) "firewall_logs.txt")
    = Ok None.
Proof.
  split.
  - apply (proj1 (analyze_logs_missing_file fs_missing "firewall_logs.txt")).
    reflexivity.
  - apply (proj2 (analyze_logs_missing_file (fs_with garbage_file)
                    "firewall_logs.txt") garbage_file); [reflexivity|].
    apply (proj1 (filter_nil_Forall well_formed garbage_file)).
    vm_compute. reflexivity.
Defined.

(** C5 as stated fails: a file that opens and holds no well-formed line
    gives the same [None] as a missing file. *)
Lemma analyze_logs_missing_file_counterexample :
  value (analyze_logs (fs_with garbage_file) "firewall_logs.txt")
  = value (analyze_logs fs_missing "firewall_logs.txt")
  ∧ ¬ ((∀ fs path e, fs path = OpenRaises e →
          value (analyze_logs fs path) = Ok None)
       ∧ (∀ fs path, value (analyze_logs fs path) = Ok None →
            ∃ e, fs path = OpenRaises e)).
Proof.
  split; [vm_compute; reflexivity|]. intros [_ H].
  destruct (H (fs_with garbage_file) "firewall_logs.txt"%string) as [e He].
  - vm_compute. reflexivity.
  - discriminate He.
Qed.

(** What the script does with an error of [open] other than a missing
    file: the exception reaches the caller. *)
Example analyze_logs_permission_error :
  analyze_logs (λ _, OpenRaises PermissionError) "firewall_logs.txt"
  = ([], Raise (OSError PermissionError)).
Proof. reflexivity. Qed.

(** ** The filter *)

Lemma getitem_mask_rows df field v :
  rows (getitem_mask df (eq_scalar ((λ r, dict_get r.2 field) <$> rows df) v))
  = filter (λ row, dict_get row.2 field = Some v) (rows df).
Proof.
  unfold getitem_mask, eq_scalar. cbn [rows].
  induction (rows df) as [|row l IH]; [done|].
  cbn [fmap list_fmap zip zip_with].
  destruct (decide (dict_get row.2 field = Some v)) as [Heq|Hne].
  - rewrite bool_decide_eq_true_2 by done.
    rewrite !filter_cons_True by done.
    cbn [fmap list_fmap fst]. by rewrite <- IH.
  - rewrite bool_decide_eq_false_2 by done.
    rewrite !filter_cons_False by done. exact IH.
Qed.

Lemma filterByField_Ok df field v :
  field ∈ columns df →
  filterByField df field v
  = Ok {| columns := columns df;
          rows := filter (λ row, dict_get row.2 field = Some v) (rows df) |}.
Proof.
  intros Hin. unfold filterByField, getitem_column.
  rewrite decide_True by done. rewrite <- getitem_mask_rows. done.
Qed.

Lemma filterByField_inv df field v r :
  filterByField df field v = Ok r →
  field ∈ columns df
  ∧ r = {| columns := columns df;
           rows := filter (λ row, dict_get row.2 field = Some v) (rows df) |}.
Proof.
  destruct (decide (field ∈ columns df)) as [Hin|Hout].
  - rewrite filterByField_Ok by done. by intros [= <-].
  - unfold filterByField, getitem_column. by rewrite decide_False.
Qed.

Lemma filter_twice {A} (P : A → Prop) `{!∀ x, Decision (P x)}
    (l : list A) :
  filter P (filter P l) = filter P l.
Proof.
  induction l as [|x l IH]; [done|]. rewrite filter_cons.
  case_decide; [|done]. rewrite filter_cons_True by done. by rewrite IH.
Qed.




(** C7.  Filtering is idempotent: the same filter applied to its own
    result gives that result again. *)
Theorem filterByField_idempotent df field v r :
  filterByField df field v = Ok r → filterByField r field v = Ok r.
Proof.
  intros [Hin ->]%filterByField_inv.
  rewrite filterByField_Ok by done. cbn [columns rows].
  by rewrite filter_twice.
Qed.

Lemma filterByField_idempotent_witness :
  filterByField
    {| columns := field_names;
       rows := [ (0%nat, record_of event_blocked);
                 (2%nat, record_of event_blocked) ] |}
    "action" (str_of "BLOCKED")
  = Ok {| columns := field_names;
          rows := [ (0%nat, record_of event_blocked);
                    (2%nat, record_of event_blocked) ] |}.
Proof.
  apply (filterByField_idempotent sample_frame).
  vm_compute. reflexivity.
Defined.

(** * Further properties of the script *)

(** ** [parse_log_line]: whitespace, short lines *)

Lemma lstrip_space_app ws s :
  Forall (λ c, is_space c = true) ws → lstrip (ws ++ s) = lstrip s.
Proof. induction 1 as [|c ws Hc _ IH]; [done|]. simpl. by rewrite Hc. Qed.

Lemma rstrip_space_app s ws :
  Forall (λ c, is_space c = true) ws → rstrip (s ++ ws) = rstrip s.
Proof.
  intros Hws. unfold rstrip. rewrite rev_app_distr.
  rewrite lstrip_space_app; [done|]. by apply List.Forall_rev.
Qed.

Lemma lstrip_head s x t : lstrip s = x :: t → is_space x = false.
Proof.
  induction s as [|c s IH]; simpl; [done|].
  destruct (is_space c) eqn:E; [done|]. by intros [= <- _].
Qed.

Lemma strip_pad ws1 s ws2 :
  Forall (λ c, is_space c = true) ws1 →
  Forall (λ c, is_space c = true) ws2 →
  strip (ws1 ++ s ++ ws2) = strip s.
Proof.
  intros H1 H2. unfold strip. rewrite lstrip_space_app by done.
  destruct (lstrip_decomp s) as (w & Hw & Es).
  destruct (lstrip s) as [|x t] eqn:E.
  - rewrite app_nil_r in Es. subst w.
    rewrite lstrip_space_app by done.
    rewrite <- (app_nil_r ws2), lstrip_space_app by done. done.
  - rewrite Es, <- app_assoc, lstrip_space_app by done.
    apply lstrip_head in E.
    assert (lstrip ((x :: t) ++ ws2) = (x :: t) ++ ws2) as ->
      by (cbn [app lstrip]; by rewrite E).
    by apply rstrip_space_app.
Qed.

(** X1.  Whitespace around a line is insignificant: a line padded with
    whitespace on either side (spaces, tabs, the newline the file
    iteration leaves at its end, ...) gives the same record and the same
    diagnostic as the line itself. *)
Theorem parse_log_line_padding ws1 line ws2 :
  Forall (λ c, is_space c = true) ws1 →
  Forall (λ c, is_space c = true) ws2 →
  parse_log_line (ws1 ++ line ++ ws2) = parse_log_line line.
Proof.
  intros H1 H2. unfold parse_log_line. by rewrite strip_pad.
Qed.

Lemma parse_log_line_padding_witness :
  parse_log_line ([32; 9] ++ tokens event_blocked ++ [32; 13; 10])
  = parse_log_line (tokens event_blocked).
Proof.
  apply parse_log_line_padding; repeat constructor.
Defined.

(** X2.  The record returned is always read off the leftmost occurrence
    of the six tokens in the trimmed line, every value verbatim; and a
    record is returned whenever there is an occurrence. *)
Theorem parse_log_line_Some_iff line d :
  value (parse_log_line line) = Some d ↔
  ∃ i v, d = record_of v ∧ occurs_at (strip line) i v
         ∧ ∀ j w, (j < i)%nat → ¬ occurs_at (strip line) j w.
Proof.
  rewrite parse_log_line_value. split.
  - intros (i & Hi & Hm & Hno)%re_search_Some.
    apply match_occurs_at in Hm as (v & Hocc & ->); [|done].
    exists i, v. split_and!; [done..|].
    intros j w Hj Hw%occurs_at_match. rewrite Hno in Hw by done.
    discriminate.
  - intros (i & v & -> & Hocc & Hno).
    pose proof Hocc as (_ & Hi & _).
    apply (re_search_leftmost _ _ i); [done|by apply occurs_at_match|].
    intros j Hj.
    destruct (match_here log_pattern (drop j (strip line))) as [m|] eqn:E;
      [exfalso|done].
    apply match_occurs_at in E as (w & Hw & _); [|lia]. by apply (Hno j w).
Qed.

(** X3.  The six tokens can be read in one way only at a given position:
    two occurrences at the same position have the same six values. *)
Theorem occurs_at_unique s i v w :
  occurs_at s i v → occurs_at s i w → v = w.
Proof.
  intros Hv%occurs_at_match Hw%occurs_at_match. rewrite Hv in Hw.
  destruct v, w. unfold record_of in Hw. cbn in Hw. congruence.
Qed.

Lemma occurs_at_unique_witness :
  occurs_at (tokens event_blocked ++ str_of " LEN=60") 0 event_blocked
  ∧ event_blocked
    = mkFields (str_of "192.168.1.5") (str_of "10.0.0.1") (str_of "TCP")
               (str_of "443") (str_of "51515") (str_of "BLOCKED").
Proof.
  assert (occurs_at (tokens event_blocked ++ str_of " LEN=60") 0
            event_blocked) as Hocc.
  { exists (str_of " LEN=60").
    split_and!; [vm_compute; lia|reflexivity..]. }
  split; [exact Hocc|].
  exact (occurs_at_unique _ 0%nat _ _ Hocc Hocc).
Defined.

Lemma token_length k w : token k w = true → (1 ≤ length w)%nat.
Proof. destruct w; [done|]. simpl. lia. Qed.

Lemma well_formed_length s : well_formed s → (40 ≤ length s)%nat.
Proof.
  intros (pre & v & post & -> & Hv).
  apply valid_tokens in Hv as (Ha & Hb & Hc & Hd & He & Hf).
  apply token_length in Ha, Hb, Hc, Hd, He, Hf.
  unfold tokens. rewrite !length_app.
  change (length (str_of "SRC=")) with 4%nat.
  change (length (str_of " DST=")) with 5%nat.
  change (length (str_of " PROTO=")) with 7%nat.
  change (length (str_of " SPT=")) with 5%nat.
  change (length (str_of " DPT=")) with 5%nat.
  change (length (str_of " ACTION=")) with 8%nat.
  lia.
Qed.

Lemma parse_log_line_None line :
  value (parse_log_line line) = None →
  parse_log_line line = ([str_of "Skipped Line: " ++ strip line], None).
Proof.
  rewrite parse_log_line_value. unfold parse_log_line.
  by destruct (re_search log_pattern (strip line)).
Qed.

(** X4.  A line of fewer than 40 characters once trimmed is skipped: the
    shortest text the pattern matches has 40 characters. *)
Theorem parse_log_line_short line :
  (length (strip line) < 40)%nat →
  parse_log_line line = ([str_of "Skipped Line: " ++ strip line], None).
Proof.
  intros Hlen. apply parse_log_line_None.
  destruct (value (parse_log_line line)) as [d|] eqn:E; [exfalso|done].
  assert (well_formed (strip line)) as Hwf%well_formed_length; [|lia].
  apply (proj1 (well_formed_strip line)).
  apply (proj1 (parse_Some_well_formed line)). rewrite E. by eexists.
Qed.

Lemma parse_log_line_short_witness :
  parse_log_line (str_of "SRC=1.1.1.1 DST=2.2.2.2 PROTO=TCP")
  = ([str_of "Skipped Line: SRC=1.1.1.1 DST=2.2.2.2 PROTO=TCP"], None).
Proof.
  apply (parse_log_line_short (str_of "SRC=1.1.1.1 DST=2.2.2.2 PROTO=TCP")).
  vm_compute. lia.
Defined.

(** The bound of X4 is reached. *)
Example parse_log_line_shortest :
  length (str_of "SRC=a DST=b PROTO=c SPT=1 DPT=2 ACTION=d") = 40%nat
  ∧ is_Some (value (parse_log_line
               (str_of "SRC=a DST=b PROTO=c SPT=1 DPT=2 ACTION=d"))).
Proof. split; [reflexivity|]. vm_compute. by eexists. Qed.

(** X5.  A blank line -- empty, or whitespace only -- is skipped, and the
    diagnostic shows nothing after its label. *)
Theorem parse_log_line_blank line :
  Forall (λ c, is_space c = true) line →
  parse_log_line line = ([str_of "Skipped Line: "], None).
Proof.
  intros Hws.
  assert (strip line = []) as E.
  { pose proof (strip_pad line [] [] Hws (Forall_nil_2 _)) as Hs.
    by rewrite !app_nil_r in Hs. }
  pose proof (parse_log_line_None line) as H. rewrite E, app_nil_r in H.
  apply H. destruct (value (parse_log_line line)) as [d|] eqn:Ed; [|done].
  assert (well_formed (strip line)) as Hwf%well_formed_length.
  { apply (proj1 (well_formed_strip line)).
    apply (proj1 (parse_Some_well_formed line)). rewrite Ed. by eexists. }
  rewrite E in Hwf. simpl in Hwf. lia.
Qed.

Lemma parse_log_line_blank_witness :
  parse_log_line [32; 9; 13; 10] = ([str_of "Skipped Line: "], None).
Proof. apply parse_log_line_blank. repeat constructor. Defined.

(** ** [analyze_logs]: composition, the frame it returns, what it raises *)

(** X6.  The loop keeps no state between lines beyond the list it
    appends to: over a file made of two parts it prints the diagnostics
    of the first part, then those of the second, and collects the records
    of the first part, then those of the second. *)
Theorem for_line_in_app file1 file2 parsed_data :
  for_line_in (file1 ++ file2) parsed_data
  = (stdout (for_line_in file1 parsed_data)
       ++ stdout (for_line_in file2 []),
     value (for_line_in file1 parsed_data)
       ++ value (for_line_in file2 [])).
Proof.
  rewrite !for_line_in_spec. unfold stdout, value. cbn [fst snd].
  by rewrite fmap_app, omap_app, app_assoc.
Qed.

Lemma omap_parse_records file :
  Forall (λ d, ∃ v, d = record_of v)
    (omap (λ line, value (parse_log_line line)) file).
Proof.
  induction file as [|line file IH]; [constructor|]. cbn [omap list_omap].
  destruct (parse_log_line_cases line) as [[_ [v ->]]|[_ ->]];
    cbn [value snd]; [|done]. constructor; [by exists v|done].
Qed.

Lemma analyze_logs_Some fs path df :
  value (analyze_logs fs path) = Ok (Some df) →
  ∃ file, fs path = OpenYields file
    ∧ omap (λ line, value (parse_log_line line)) file ≠ []
    ∧ df = pd_DataFrame (omap (λ line, value (parse_log_line line)) file).
Proof.
  destruct (fs path) as [e|file] eqn:E.
  - unfold analyze_logs. rewrite E. by destruct e.
  - rewrite (analyze_logs_opened _ _ _ E). intros Hv. exists file.
    destruct (omap _ file) as [|d l]; [done|]. cbn [value snd] in Hv.
    injection Hv as <-. done.
Qed.

(** X7.  A data frame returned by [analyze_logs] is never empty: it has
    the six columns, in the order of the groups of the pattern, and at
    least one row; the rows are labelled 0, 1, 2, ... and hold the records
    of the well-formed lines of the file, in order. *)
Theorem analyze_logs_frame fs path df :
  value (analyze_logs fs path) = Ok (Some df) →
  columns df = field_names ∧ rows df ≠ [] ∧ df_empty df = false
  ∧ (rows df).*1 = seq 0 (length (rows df))
  ∧ ∃ file, fs path = OpenYields file
      ∧ Forall2 (λ line r, value (parse_log_line line) = Some r.2)
          (filter well_formed file) (rows df).
Proof.
  intros (file & E & Hne & ->)%analyze_logs_Some.
  set (records := omap _ file) in *.
  destruct (pd_DataFrame_rows records) as [Hlab Hrec].
  assert (columns (pd_DataFrame records) = field_names) as Hcol
    by (apply pd_DataFrame_columns; [done|apply omap_parse_records]).
  assert (rows (pd_DataFrame records) ≠ []) as Hrows.
  { intros Hnil. rewrite Hnil in Hrec. by symmetry in Hrec. }
  split_and!; [done|done| | |].
  - unfold df_empty. rewrite Hcol.
    by destruct (rows (pd_DataFrame records)).
  - rewrite Hlab. f_equal.
    rewrite <- Hrec at 1. by rewrite length_fmap.
  - exists file. split; [done|].
    pose proof (omap_parse_well_formed file) as HF2. fold records in HF2.
    rewrite <- Hrec in HF2. by apply Forall2_fmap_r in HF2.
Qed.

Lemma analyze_logs_frame_witness :
  ∃ df, value (analyze_logs (fs_with sample_file) "firewall_logs.txt")
        = Ok (Some df)
        ∧ columns df = field_names ∧ df_empty df = false.
Proof.
  eexists. split; [vm_compute; reflexivity|].
  split; eapply (analyze_logs_frame (fs_with sample_file) "firewall_logs.txt");
    vm_compute; reflexivity.
Defined.

(** ** [main] *)

Lemma main_eq to_string fs :
  main to_string fs
  = match analyze_logs fs "firewall_logs.txt" with
    | (out, Raise e) => (banner_start :: out, Raise e)
    | (out, Ok None) => (banner_start :: out ++ [banner_nothing], Ok tt)
    | (out, Ok (Some log_data)) =>
        if df_empty log_data
        then (banner_start :: out ++ [banner_nothing], Ok tt)
        else
          match filterByField log_data "action" (str_of "BLOCKED") with
          | Raise e =>
              (banner_start :: out ++ [banner_parsed; to_string log_data],
               Raise e)
          | Ok blocked_traffic =>
              (banner_start :: out
                 ++ [banner_parsed; to_string log_data;
                     banner_blocked; to_string blocked_traffic],
               Ok tt)
          end
    end.
Proof.
  unfold main. destruct (analyze_logs fs "firewall_logs.txt") as [out r].
  unfold io_bind, print, io_ret.
  destruct r as [[log_data|]|e]; [|done|by rewrite app_nil_r].
  destruct (df_empty log_data); [done|]. cbn [negb].
  by destruct (filterByField log_data "action" (str_of "BLOCKED")).
Qed.

(** X9.  When the log file does not exist, [main] ends normally after
    three lines: what it analyzes, the error of [analyze_logs], and that
    no valid log data was found. *)
Theorem main_missing_file to_string fs :
  fs "firewall_logs.txt"%string = OpenRaises FileNotFoundError →
  main to_string fs
  = ([banner_start; str_of "Error: Log file not found."; banner_nothing],
     Ok tt).
Proof.
  intros E. rewrite main_eq. unfold analyze_logs. by rewrite E.
Qed.

Lemma main_missing_file_witness :
  main (λ _, []) fs_missing
  = ([banner_start; str_of "Error: Log file not found."; banner_nothing],
     Ok tt).
Proof. apply main_missing_file. reflexivity. Defined.

(** X10.  When the log file opens and holds no well-formed line, [main]
    ends normally: after one diagnostic per line it prints the message of
    [analyze_logs] and that no valid log data was found, and no table. *)
Theorem main_no_valid_line to_string fs file :
  fs "firewall_logs.txt"%string = OpenYields file →
  Forall (λ line, ¬ well_formed line) file →
  main to_string fs
  = (banner_start :: (diagnostic <$> file)
       ++ [str_of "No valid log entries were parsed."; banner_nothing],
     Ok tt).
Proof.
  intros E Hall. rewrite main_eq, (analyze_logs_opened _ _ _ E).
  rewrite (omap_parse_ill_formed _ Hall). by rewrite <- app_assoc.
Qed.

Lemma main_no_valid_line_witness :
  main (λ _, []) (fs_with garbage_file)
  = ([ banner_start;
       str_of "Skipped Line: malformed garbage text";
       str_of "Skipped Line: ";
       str_of "No valid log entries were parsed.";
       banner_nothing ],
     Ok tt).
Proof.
  apply (main_no_valid_line (λ _, []) (fs_with garbage_file) garbage_file);
    [reflexivity|].
  apply (proj1 (filter_nil_Forall well_formed garbage_file)).
  vm_compute. reflexivity.
Defined.

(** X11.  When the file holds a well-formed line, [main] ends normally
    and prints, after one diagnostic per line, the table of all records
    and then the table of the records whose action is exactly BLOCKED,
    in file order with their labels; the selection of the column
    [action] cannot fail on what [analyze_logs] returns. *)
Theorem main_reports to_string fs file :
  fs "firewall_logs.txt"%string = OpenYields file →
  filter well_formed file ≠ [] →
  ∃ log_data blocked_traffic,
    value (analyze_logs fs "firewall_logs.txt") = Ok (Some log_data)
    ∧ columns blocked_traffic = field_names
    ∧ rows blocked_traffic
      = filter (λ row, dict_get row.2 "action" = Some (str_of "BLOCKED"))
          (rows log_data)
    ∧ main to_string fs
      = (banner_start :: (diagnostic <$> file)
           ++ [banner_parsed; to_string log_data;
               banner_blocked; to_string blocked_traffic],
         Ok tt).
Proof.
  intros E Hne. pose proof (omap_parse_well_formed file) as HF2.
  pose proof (omap_parse_records file) as Hrec.
  pose proof (analyze_logs_opened _ _ _ E) as Hrun.
  destruct (omap (λ line, value (parse_log_line line)) file) as [|d l].
  { by apply Forall2_nil_inv_r in HF2. }
  assert (columns (pd_DataFrame (d :: l)) = field_names) as Hcol
    by (by apply pd_DataFrame_columns).
  assert (df_empty (pd_DataFrame (d :: l)) = false) as Hempty
    by (unfold df_empty; by rewrite Hcol).
  assert ("action"%string ∈ columns (pd_DataFrame (d :: l))) as Hin
    by (rewrite Hcol; vm_compute; repeat constructor).
  exists (pd_DataFrame (d :: l)),
    {| columns := field_names;
       rows := filter (λ row, dict_get row.2 "action"
                              = Some (str_of "BLOCKED"))
                 (rows (pd_DataFrame (d :: l))) |}.
  split_and!; [by rewrite Hrun|done|done|].
  rewrite main_eq, Hrun, Hempty, (filterByField_Ok _ _ _ Hin).
  by rewrite Hcol.
Qed.

Lemma main_reports_witness :
  ∃ log_data blocked_traffic,
    rows blocked_traffic = [(0%nat, record_of event_blocked)]
    ∧ main (λ _ : DataFrame, [] : list N) (fs_with sample_file)
      = ([ banner_start;
           str_of "Matched Line: Jan 1 00:00:00 kernel: "
             ++ tokens event_blocked;
           str_of "Skipped Line: malformed garbage text";
           str_of "Matched Line: " ++ tokens event_allowed;
           banner_parsed; (λ _ : DataFrame, [] : list N) log_data;
           banner_blocked; (λ _ : DataFrame, [] : list N) blocked_traffic ],
         Ok tt).
Proof.
  destruct (main_reports (λ _ : DataFrame, [] : list N) (fs_with sample_file) sample_file
              eq_refl)
    as (log_data & blocked & Hrun & _ & Hrows & Hmain).
  { vm_compute. discriminate. }
  exists log_data, blocked. split.
  - rewrite Hrows. vm_compute in Hrun. injection Hrun as <-.
    vm_compute. reflexivity.
  - rewrite Hmain. vm_compute. reflexivity.
Defined.

(** ** The filter: composition *)

(** X13.  Two filters commute: filtering by one field and value and then
    by another gives the same collection as filtering in the other
    order. *)
Theorem filterByField_comm df field1 v1 field2 v2 :
  field1 ∈ columns df → field2 ∈ columns df →
  ∃ r1 r2 r,
    filterByField df field1 v1 = Ok r1 ∧ filterByField r1 field2 v2 = Ok r
    ∧ filterByField df field2 v2 = Ok r2 ∧ filterByField r2 field1 v1 = Ok r.
Proof.
  intros H1 H2. eexists _, _, _. split_and!.
  - by apply filterByField_Ok.
  - by apply filterByField_Ok.
  - by apply filterByField_Ok.
  - rewrite filterByField_Ok by done. cbn [columns rows]. f_equal. f_equal.
    rewrite !list_filter_filter. apply list_filter_iff. tauto.
Qed.

Lemma filterByField_comm_witness :
  ∃ r1 r2 r,
    filterByField sample_frame "action" (str_of "BLOCKED") = Ok r1
    ∧ filterByField r1 "protocol" (str_of "TCP") = Ok r
    ∧ filterByField sample_frame "protocol" (str_of "TCP") = Ok r2
    ∧ filterByField r2 "action" (str_of "BLOCKED") = Ok r.
Proof.
  apply filterByField_comm; vm_compute; repeat constructor.
Defined.

(** X14.  Filtering a filtered collection by the same field and another
    value leaves no row (and still raises nothing). *)
Theorem filterByField_other_value df field v1 v2 r :
  filterByField df field v1 = Ok r → v1 ≠ v2 →
  filterByField r field v2 = Ok {| columns := columns df; rows := [] |}.
Proof.
  intros [Hin ->]%filterByField_inv Hne.
  rewrite filterByField_Ok by done. cbn [columns rows]. f_equal. f_equal.
  rewrite list_filter_filter.
  apply (proj2 (filter_nil_Forall _ (rows df))).
  apply Forall_forall. intros row _ [E1 E2]. congruence.
Qed.

Lemma filterByField_other_value_witness :
  filterByField blocked_frame "action" (str_of "ALLOWED")
  = Ok {| columns := columns sample_frame; rows := [] |}.
Proof.
  apply (filterByField_other_value sample_frame "action" (str_of "BLOCKED")
           (str_of "ALLOWED") blocked_frame).
  - vm_compute. reflexivity.
  - vm_compute. discriminate.
Defined.

(** X15.  The filter does not renumber: the labels of the result are
    labels of the source, in the same order, and stay distinct when the
    source's are. *)
Theorem filterByField_labels df field v r :
  filterByField df field v = Ok r →
  (rows r).*1 `sublist_of` (rows df).*1
  ∧ (NoDup (rows df).*1 → NoDup (rows r).*1).
Proof.
  intros [_ ->]%filterByField_inv. cbn [rows].
  assert ((filter (λ row, dict_get row.2 field = Some v) (rows df)).*1
            `sublist_of` (rows df).*1) as Hsub
    by apply fmap_sublist, sublist_filter.
  split; [done|]. intros Hnd. by eapply sublist_NoDup.
Qed.

Lemma filterByField_labels_witness :
  (rows blocked_frame).*1 `sublist_of` (rows sample_frame).*1
  ∧ (NoDup (rows sample_frame).*1 → NoDup (rows blocked_frame).*1).
Proof.
  apply (filterByField_labels sample_frame "action" (str_of "BLOCKED")).
  vm_compute. reflexivity.
Defined.
